(** * DualOStream: a tee stream buffer with line timestamps

    Shallow embedding of [DualOStream.h] (namespace [DualOStream]):
    the stream buffer [CTeeBuf], which forwards every character to two
    destination stream buffers and decorates line starts, and the
    facade [DStream] built on it.

    Modelling conventions.
    - A C++ [int] is a [Z]; [EOF] is [-1]. A [char] is an [ascii].
    - A destination [std::streambuf] is a record holding the trace of
      the operations requested from it and the rule by which the device
      behind it accepts or rejects a request. The two destinations are
      assumed to be distinct objects.
    - The temporary [std::ostream] objects [str1] and [str2] of
      [CTeeBuf::overflow] carry their stream buffer, their error state
      and the two formatting settings the code touches.
    - The clocks are inputs: each call that may read them receives a
      [ClockReading]. Tick counts are 64-bit integers; a [double] is a
      binary64 value of [SpecFloat].
    - [CTeeBuf] carries one ghost member, [stamps], the list of the
      values [GetTimeStamp] has returned. *)

From Stdlib Require Import ZArith List String Ascii Bool Lia.
From Stdlib Require Import DecimalString DecimalZ DecimalFacts.
From Stdlib Require Import SpecFloat.
Import ListNotations.

Local Open Scope string_scope.
Local Open Scope Z_scope.

(** ** Characters and the [char_traits<char>] conversions *)

Definition EOF : Z := -1.

(** The C operator [!] on an [int]. *)
Definition lnot (x : Z) : Z := if x =? 0 then 1 else 0.

(** ['\n'] *)
Definition nl : ascii := ascii_of_nat 10.

(** [traits_type::to_int_type]: the character as an unsigned value. *)
Definition to_int_type (c : ascii) : Z := Z.of_N (N_of_ascii c).

(** [traits_type::to_char_type], and the implicit [int] to [char]
    conversion at a call of [sputc]: the low eight bits. *)
Definition to_char_type (c : Z) : ascii := ascii_of_N (Z.to_N (c mod 256)).

(** ** Destination stream buffers *)

Inductive event : Type :=
| Put (c : ascii) (ok : bool)
| Sync (ok : bool).

Record streambuf : Type := mk_streambuf {
  trace : list event;                       (* requests so far, oldest first *)
  put_ok : list event -> ascii -> bool;     (* does the device take this character? *)
  sync_ok : list event -> bool              (* does a flush succeed? *)
}.

Definition log_event (e : event) (sb : streambuf) : streambuf :=
  {| trace := trace sb ++ [e]; put_ok := put_ok sb; sync_ok := sync_ok sb |}.

(** [std::streambuf::sputc]: the character as an [int], or [EOF]. *)
Definition sputc (c : ascii) (sb : streambuf) : Z * streambuf :=
  let ok := put_ok sb (trace sb) c in
  (if ok then to_int_type c else EOF, log_event (Put c ok) sb).

(** [std::streambuf::sputn] through the default [xsputn]: characters go
    out one at a time until one is refused; the count of those taken is
    returned. *)
Fixpoint sputn (s : string) (sb : streambuf) : nat * streambuf :=
  match s with
  | EmptyString => (O, sb)
  | String c s' =>
      let (r, sb') := sputc c sb in
      if r =? EOF then (O, sb')
      else let (n, sb'') := sputn s' sb' in (S n, sb'')
  end.

(** [std::streambuf::pubsync]: [0] on success, [-1] on failure. *)
Definition pubsync (sb : streambuf) : Z * streambuf :=
  let ok := sync_ok sb (trace sb) in
  (if ok then 0 else -1, log_event (Sync ok) sb).

(** The characters a destination has taken, in order. *)
Fixpoint taken (t : list event) : string :=
  match t with
  | [] => EmptyString
  | Put c true :: t' => String c (taken t')
  | _ :: t' => taken t'
  end.

Definition received (sb : streambuf) : string := taken (trace sb).


(** How many flushes a destination was asked for. *)
Fixpoint syncs (t : list event) : nat :=
  match t with
  | [] => O
  | Sync _ :: t' => S (syncs t')
  | _ :: t' => syncs t'
  end.

(** A destination that never refuses a character. *)
Definition accepts_all (sb : streambuf) : Prop :=
  forall h c, put_ok sb h c = true.

(** An in-memory destination: takes everything, every flush succeeds. *)
Definition stringbuf : streambuf :=
  {| trace := []; put_ok := fun _ _ => true; sync_ok := fun _ => true |}.

(** A destination that refuses everything, like the buffer of a file
    stream that was never opened. *)
Definition closedbuf : streambuf :=
  {| trace := []; put_ok := fun _ _ => false; sync_ok := fun _ => false |}.


(** ** The temporary output streams of [overflow] *)

Record ostream : Type := mk_ostream {
  rdbuf : streambuf;
  failed : bool;        (* badbit or failbit is set *)
  width : nat;          (* [ios_base::width] *)
  adjust_left : bool    (* [adjustfield == left] *)
}.

(** [std::ostream str(sb)] *)
Definition ostream_on (sb : streambuf) : ostream :=
  {| rdbuf := sb; failed := false; width := O; adjust_left := false |}.

Definition with_rdbuf (sb : streambuf) (fl : bool) (os : ostream) : ostream :=
  {| rdbuf := sb; failed := failed os || fl;
     width := width os; adjust_left := adjust_left os |}.

(** [str << std::setw(n)] *)
Definition setw (n : nat) (os : ostream) : ostream :=
  {| rdbuf := rdbuf os; failed := failed os;
     width := n; adjust_left := adjust_left os |}.

(** [str << std::left] *)
Definition std_left (os : ostream) : ostream :=
  {| rdbuf := rdbuf os; failed := failed os;
     width := width os; adjust_left := true |}.

(** Unformatted write of a whole string; a short count sets badbit. *)
Definition ostream_write (s : string) (os : ostream) : ostream :=
  let (n, sb) := sputn s (rdbuf os) in
  with_rdbuf sb (negb (Nat.eqb n (String.length s))) os.

(** [n] fill characters (the fill character is the default, a space);
    stops and sets badbit at the first refusal. *)
Fixpoint ostream_fill (n : nat) (os : ostream) : ostream :=
  match n with
  | O => os
  | S k =>
      let (r, sb) := sputc " "%char (rdbuf os) in
      if r =? EOF then with_rdbuf sb true os
      else ostream_fill k (with_rdbuf sb false os)
  end.

(** [str << s] for a string: nothing happens on a stream that is not
    good; otherwise the string is padded to the field width on the side
    the adjustment asks for, and the width is reset. *)
Definition insert (s : string) (os : ostream) : ostream :=
  if failed os then os
  else
    let n := String.length s in
    let w := width os in
    let os' :=
      if Nat.ltb n w then
        let os1 := if adjust_left os then os else ostream_fill (w - n) os in
        let os2 := if failed os1 then os1 else ostream_write s os1 in
        if adjust_left os && negb (failed os2)
        then ostream_fill (w - n) os2 else os2
      else ostream_write s os in
    setw O os'.

Notation "os << s" := (insert s os) (at level 50, left associativity).

(** ** [std::to_string] *)

(** [std::to_string(int)]: decimal, a minus sign for negative values. *)
Definition to_string (z : Z) : string :=
  NilEmpty.string_of_int (Z.to_int z).

(** A [double] is an IEEE 754 binary64 value. *)
Definition prec : Z := 53.
Definition emax : Z := 1024.
Definition double : Type := spec_float.

(** [static_cast<double>] of an integer, rounded to nearest even. *)
Definition double_of_Z (z : Z) : double :=
  binary_normalize prec emax z 0 false.

Definition digit_char (d : Z) : ascii :=
  ascii_of_N (48 + Z.to_N (d mod 10)).

(** Six decimal places of a count of millionths below one. *)
Definition frac6 (r : Z) : string :=
  String (digit_char (r / 100000))
 (String (digit_char (r / 10000))
 (String (digit_char (r / 1000))
 (String (digit_char (r / 100))
 (String (digit_char (r / 10))
 (String (digit_char r) EmptyString))))).

Definition round_half_even (num den : Z) : Z :=
  let q := num / den in
  match (2 * (num mod den) ?= den) with
  | Lt => q
  | Gt => q + 1
  | Eq => if Z.even q then q else q + 1
  end.

(** The magnitude [m * 2^e] in millionths, correctly rounded. *)
Definition millionths (m : positive) (e : Z) : Z :=
  if 0 <=? e then Zpos m * 2 ^ e * 1000000
  else round_half_even (Zpos m * 1000000) (2 ^ (- e)).

Definition fixed6 (neg : bool) (q : Z) : string :=
  (if neg then "-" else "") ++ to_string (q / 1000000) ++ "." ++ frac6 (q mod 1000000).

(** [std::to_string(double)], that is [printf] with ["%f"]. *)
Definition to_string_double (x : double) : string :=
  match x with
  | S754_zero s => fixed6 s 0
  | S754_infinity s => if s then "-inf" else "inf"
  | S754_nan => "nan"
  | S754_finite s m e => fixed6 s (millionths m e)
  end.

(** ** Clocks *)

(** The fields of [struct tm] that the code reads. *)
Record tm : Type := mk_tm {
  tm_year : Z; tm_mon : Z; tm_mday : Z;
  tm_hour : Z; tm_min : Z; tm_sec : Z
}.

(** What the clocks show during one call of [GetTimeStamp]. The
    high-resolution clock counts ticks; it is read once when the clock
    is started and once for [now]. *)
Record ClockReading : Type := mk_clock {
  hr_first : Z;      (* [high_resolution_clock::now()], read for [start] *)
  hr_now : Z;        (* [high_resolution_clock::now()], read for [now] *)
  local_tm : tm      (* [*localtime] of [system_clock::now()] *)
}.

(** Ticks of the high-resolution clock in a second (its period is
    [std::nano]). *)
Definition ticks_per_second : Z := 1000000000.

(** The tick count is a 64-bit signed integer; its arithmetic is
    written with two's-complement wrap-around. *)
Definition wrap64 (z : Z) : Z := (z + 2 ^ 63) mod 2 ^ 64 - 2 ^ 63.

(** Conversion of a tick count to [std::chrono::duration<double>]. *)
Definition duration_double (ticks : Z) : double :=
  SFdiv prec emax (double_of_Z ticks) (double_of_Z ticks_per_second).

(** ** [class CTeeBuf] *)

Record CTeeBuf : Type := mk_CTeeBuf {
  sb1 : streambuf;
  sb2 : streambuf;
  timeStampEnabledStream1 : bool;
  timeStampEnabledStream2 : bool;
  timeStamp : string;
  forceMessage : bool;
  forcedMessage : string;
  clockStarted : bool;
  start : Z;
  now : Z;
  newline : bool;
  (* ghost: the values [GetTimeStamp] has returned, oldest first *)
  stamps : list string
}.

(** [CTeeBuf(sb1, sb2)] with the default member initialisers; a
    default-constructed [time_point] is the clock's epoch. *)
Definition CTeeBuf_new (s1 s2 : streambuf) : CTeeBuf :=
  {| sb1 := s1; sb2 := s2;
     timeStampEnabledStream1 := false; timeStampEnabledStream2 := false;
     timeStamp := ""; forceMessage := false; forcedMessage := "";
     clockStarted := false; start := 0; now := 0; newline := true;
     stamps := [] |}.

Definition set_sbs (s1 s2 : streambuf) (b : CTeeBuf) : CTeeBuf :=
  {| sb1 := s1; sb2 := s2;
     timeStampEnabledStream1 := timeStampEnabledStream1 b;
     timeStampEnabledStream2 := timeStampEnabledStream2 b;
     timeStamp := timeStamp b; forceMessage := forceMessage b;
     forcedMessage := forcedMessage b; clockStarted := clockStarted b;
     start := start b; now := now b; newline := newline b;
     stamps := stamps b |}.

Definition set_timeStampEnabledStream1 (v : bool) (b : CTeeBuf) : CTeeBuf :=
  {| sb1 := sb1 b; sb2 := sb2 b;
     timeStampEnabledStream1 := v;
     timeStampEnabledStream2 := timeStampEnabledStream2 b;
     timeStamp := timeStamp b; forceMessage := forceMessage b;
     forcedMessage := forcedMessage b; clockStarted := clockStarted b;
     start := start b; now := now b; newline := newline b;
     stamps := stamps b |}.

Definition set_timeStampEnabledStream2 (v : bool) (b : CTeeBuf) : CTeeBuf :=
  {| sb1 := sb1 b; sb2 := sb2 b;
     timeStampEnabledStream1 := timeStampEnabledStream1 b;
     timeStampEnabledStream2 := v;
     timeStamp := timeStamp b; forceMessage := forceMessage b;
     forcedMessage := forcedMessage b; clockStarted := clockStarted b;
     start := start b; now := now b; newline := newline b;
     stamps := stamps b |}.

Definition set_timeStamp (v : string) (b : CTeeBuf) : CTeeBuf :=
  {| sb1 := sb1 b; sb2 := sb2 b;
     timeStampEnabledStream1 := timeStampEnabledStream1 b;
     timeStampEnabledStream2 := timeStampEnabledStream2 b;
     timeStamp := v; forceMessage := forceMessage b;
     forcedMessage := forcedMessage b; clockStarted := clockStarted b;
     start := start b; now := now b; newline := newline b;
     stamps := stamps b |}.

Definition set_forceMessage (v : bool) (b : CTeeBuf) : CTeeBuf :=
  {| sb1 := sb1 b; sb2 := sb2 b;
     timeStampEnabledStream1 := timeStampEnabledStream1 b;
     timeStampEnabledStream2 := timeStampEnabledStream2 b;
     timeStamp := timeStamp b; forceMessage := v;
     forcedMessage := forcedMessage b; clockStarted := clockStarted b;
     start := start b; now := now b; newline := newline b;
     stamps := stamps b |}.

Definition set_forcedMessage (v : string) (b : CTeeBuf) : CTeeBuf :=
  {| sb1 := sb1 b; sb2 := sb2 b;
     timeStampEnabledStream1 := timeStampEnabledStream1 b;
     timeStampEnabledStream2 := timeStampEnabledStream2 b;
     timeStamp := timeStamp b; forceMessage := forceMessage b;
     forcedMessage := v; clockStarted := clockStarted b;
     start := start b; now := now b; newline := newline b;
     stamps := stamps b |}.

Definition set_newline (v : bool) (b : CTeeBuf) : CTeeBuf :=
  {| sb1 := sb1 b; sb2 := sb2 b;
     timeStampEnabledStream1 := timeStampEnabledStream1 b;
     timeStampEnabledStream2 := timeStampEnabledStream2 b;
     timeStamp := timeStamp b; forceMessage := forceMessage b;
     forcedMessage := forcedMessage b; clockStarted := clockStarted b;
     start := start b; now := now b; newline := v;
     stamps := stamps b |}.

(** The three clock members, written together by [GetTimeStamp], and
    the ghost record of its result. *)
Definition set_clock (started : bool) (st nw : Z) (ret : string)
    (b : CTeeBuf) : CTeeBuf :=
  {| sb1 := sb1 b; sb2 := sb2 b;
     timeStampEnabledStream1 := timeStampEnabledStream1 b;
     timeStampEnabledStream2 := timeStampEnabledStream2 b;
     timeStamp := timeStamp b; forceMessage := forceMessage b;
     forcedMessage := forcedMessage b; clockStarted := started;
     start := st; now := nw; newline := newline b;
     stamps := stamps b ++ [ret] |}.

(** [CTeeBuf::GetTimeStamp] *)
Definition GetTimeStamp (clk : ClockReading) (b : CTeeBuf) : string * CTeeBuf :=
  let st := if clockStarted b then start b else hr_first clk in
  let nw := hr_now clk in
  let time_span := duration_double (wrap64 (nw - st)) in
  let local_tm := local_tm clk in
  let strTimeStamp := "[" in
  let strTimeStamp := strTimeStamp ++ to_string (tm_year local_tm + 1900) in
  let strTimeStamp := strTimeStamp ++ "-" in
  let strTimeStamp := strTimeStamp ++ to_string (tm_mon local_tm + 1) in
  let strTimeStamp := strTimeStamp ++ "-" in
  let strTimeStamp := strTimeStamp ++ to_string (tm_mday local_tm) in
  let strTimeStamp := strTimeStamp ++ "|" in
  let strTimeStamp := strTimeStamp ++ to_string (tm_hour local_tm) in
  let strTimeStamp := strTimeStamp ++ ":" in
  let strTimeStamp := strTimeStamp ++ to_string (tm_min local_tm) in
  let strTimeStamp := strTimeStamp ++ ":" in
  let strTimeStamp := strTimeStamp ++ to_string (tm_sec local_tm) in
  let strTimeStamp := strTimeStamp ++ "|" in
  let strTimeStamp := strTimeStamp ++ to_string_double time_span in
  let strTimeStamp := strTimeStamp ++ "] " in
  (strTimeStamp, set_clock true st nw strTimeStamp b).

(** [CTeeBuf::overflow] *)
Definition overflow (clk : ClockReading) (c : Z) (b : CTeeBuf) : Z * CTeeBuf :=
  if c =? EOF then (lnot EOF, b)
  else
    let str1 := ostream_on (sb1 b) in
    let str2 := ostream_on (sb2 b) in
    let '(b, str1, str2) :=
      if forceMessage b
      then (set_newline true b, str1 << String nl "", str2 << String nl "")
      else (b, str1, str2) in
    let '(b, str1, str2, c) :=
      if newline b then
        let '(b, str1, str2) :=
          if timeStampEnabledStream1 b || timeStampEnabledStream2 b then
            let (ts, b) := GetTimeStamp clk b in
            let b := set_timeStamp ts b in
            let str1 :=
              if timeStampEnabledStream1 b
              then std_left (setw 32 str1) << timeStamp b else str1 in
            let str2 :=
              if timeStampEnabledStream2 b
              then std_left (setw 32 str2) << timeStamp b else str2 in
            (b, str1, str2)
          else (b, str1, str2) in
        if forceMessage b then
          (set_forceMessage false b,
           str1 << forcedMessage b, str2 << forcedMessage b,
           to_int_type nl)
        else (b, str1, str2, c)
      else (b, str1, str2, c) in
    let b := set_newline (Ascii.eqb (to_char_type c) nl) b in
    let (r1, s1) := sputc (to_char_type c) (rdbuf str1) in
    let (r2, s2) := sputc (to_char_type c) (rdbuf str2) in
    (if (r1 =? EOF) || (r2 =? EOF) then EOF else c, set_sbs s1 s2 b).

(** [CTeeBuf::sync] *)
Definition sync (b : CTeeBuf) : Z * CTeeBuf :=
  let (r1, s1) := pubsync (sb1 b) in
  let (r2, s2) := pubsync (sb2 b) in
  (if (r1 =? 0) && (r2 =? 0) then 0 else -1, set_sbs s1 s2 b).

(** [sputc] on the tee buffer itself: it has no put area, so every
    character goes to [overflow]. *)
Definition tee_sputc (clk : ClockReading) (c : ascii) (b : CTeeBuf) : Z * CTeeBuf :=
  overflow clk (to_int_type c) b.

(** [sputn] on the tee buffer (the default [xsputn]): stops at the
    first character for which [overflow] reports [EOF]. The clocks show
    [clk i] while the character at index [i] is handled. *)
Fixpoint tee_sputn (clk : nat -> ClockReading) (s : string) (b : CTeeBuf)
    : nat * CTeeBuf :=
  match s with
  | EmptyString => (O, b)
  | String c s' =>
      let (r, b') := tee_sputc (clk O) c b in
      if r =? EOF then (O, b')
      else let (n, b'') := tee_sputn (fun i => clk (S i)) s' b' in (S n, b'')
  end.

(** ** [class DStream] *)

Record DStream : Type := mk_DStream {
  tbuf : CTeeBuf;
  ios_failed : bool     (* badbit or failbit of the stream itself *)
}.

Definition on_tbuf (f : CTeeBuf -> CTeeBuf) (d : DStream) : DStream :=
  {| tbuf := f (tbuf d); ios_failed := ios_failed d |}.

Definition EnableTimeStampStream1 : DStream -> DStream :=
  on_tbuf (set_timeStampEnabledStream1 true).
Definition EnableTimeStampStream2 : DStream -> DStream :=
  on_tbuf (set_timeStampEnabledStream2 true).
Definition DisableTimeStampStream1 : DStream -> DStream :=
  on_tbuf (set_timeStampEnabledStream1 false).
Definition DisableTimeStampStream2 : DStream -> DStream :=
  on_tbuf (set_timeStampEnabledStream2 false).

(** [DStream(o1, o2)], given the stream buffers of [o1] and [o2]. *)
Definition DStream_new (o1 o2 : streambuf) : DStream :=
  {| tbuf := CTeeBuf_new o1 o2; ios_failed := false |}.

(** [DStream(o1, o2, enableTimeStampStream_1, enableTimeStampStream_2)] *)
Definition DStream_new_ts (o1 o2 : streambuf)
    (enableTimeStampStream_1 enableTimeStampStream_2 : bool) : DStream :=
  let d := DStream_new o1 o2 in
  let d := if enableTimeStampStream_1
           then EnableTimeStampStream1 d else DisableTimeStampStream1 d in
  if enableTimeStampStream_2
  then EnableTimeStampStream2 d else DisableTimeStampStream2 d.

Definition GetLastTimeStamp (d : DStream) : string := timeStamp (tbuf d).

(** The wait loop of [ForceMessage]. Its body is empty, so on one thread
    nothing changes between two tests of the flag; the result is the
    number of times the body ran, [None] when [fuel] runs did not
    end the loop. *)
Fixpoint wait_forced (fuel : nat) (b : CTeeBuf) : option nat :=
  if forceMessage b then
    match fuel with
    | O => None
    | S fuel' => option_map S (wait_forced fuel' b)
    end
  else Some O.

(** [DStream::ForceMessage]: the stream after the call and the number
    of runs of the wait loop's body. *)
Definition ForceMessage (fuel : nat) (clk : ClockReading) (message : string)
    (d : DStream) : option (nat * DStream) :=
  let message := message ++ String nl "" in
  let b := set_forcedMessage message (tbuf d) in
  let b := set_forceMessage true b in
  let (_, b) := tee_sputc clk nl b in
  match wait_forced fuel b with
  | Some n => Some (n, {| tbuf := b; ios_failed := ios_failed d |})
  | None => None
  end.

(** [dout << s] on the tee stream, default formatting: nothing on a
    stream that is not good, badbit when the buffer takes fewer
    characters than offered. *)
Definition DStream_insert (clk : nat -> ClockReading) (s : string)
    (d : DStream) : DStream :=
  if ios_failed d then d
  else
    let (n, b) := tee_sputn clk s (tbuf d) in
    {| tbuf := b; ios_failed := negb (Nat.eqb n (String.length s)) |}.

(** [dout.flush()] *)
Definition DStream_flush (d : DStream) : DStream :=
  if ios_failed d then d
  else
    let (r, b) := sync (tbuf d) in
    {| tbuf := b; ios_failed := r =? -1 |}.

(** The calls a single-threaded client can make on a [DStream]. *)
Inductive call : Type :=
| CInsert (clk : nat -> ClockReading) (s : string)
| CFlush
| CEnable1 | CEnable2 | CDisable1 | CDisable2
| CForceMessage (clk : ClockReading) (message : string).

(** One call; [None] when the call does not return within [fuel] runs
    of a wait loop. *)
Definition do_call (fuel : nat) (k : call) (d : DStream) : option DStream :=
  match k with
  | CInsert clk s => Some (DStream_insert clk s d)
  | CFlush => Some (DStream_flush d)
  | CEnable1 => Some (EnableTimeStampStream1 d)
  | CEnable2 => Some (EnableTimeStampStream2 d)
  | CDisable1 => Some (DisableTimeStampStream1 d)
  | CDisable2 => Some (DisableTimeStampStream2 d)
  | CForceMessage clk m => option_map snd (ForceMessage fuel clk m d)
  end.

Fixpoint do_calls (fuel : nat) (ks : list call) (d : DStream) : option DStream :=
  match ks with
  | [] => Some d
  | k :: ks' =>
      match do_call fuel k d with
      | Some d' => do_calls fuel ks' d'
      | None => None
      end
  end.

(** ** Sample clock readings *)

Definition tm0 : tm :=
  {| tm_year := 119; tm_mon := 2; tm_mday := 7;
     tm_hour := 9; tm_min := 5; tm_sec := 0 |}.

Definition clk0 : ClockReading :=
  {| hr_first := 5000; hr_now := 6500; local_tm := tm0 |}.

Definition clk1 : ClockReading :=
  {| hr_first := 0; hr_now := 123456794012;
     local_tm := {| tm_year := 119; tm_mon := 11; tm_mday := 31;
                    tm_hour := 23; tm_min := 59; tm_sec := 59 |} |}.

(** ** Vocabulary of the statements *)

(** [n] fill characters. *)
Fixpoint spaces (n : nat) : string :=
  match n with
  | O => ""
  | S k => String " "%char (spaces k)
  end.

(** A string set in a field of [w] columns. *)
Definition field (w : nat) (to_left : bool) (s : string) : string :=
  if to_left then s ++ spaces (w - String.length s)
  else spaces (w - String.length s) ++ s.

Fixpoint puts (s : string) : list event :=
  match s with
  | EmptyString => []
  | String c s' => Put c true :: puts s'
  end.

(** The destination after it has taken the characters of [s]. *)
Definition push (s : string) (sb : streambuf) : streambuf :=
  {| trace := trace sb ++ puts s; put_ok := put_ok sb; sync_ok := sync_ok sb |}.

(** What a destination took between two of its states. *)
Definition delivered (old new : streambuf) : string :=
  taken (skipn (List.length (trace old)) (trace new)).

(** A good output stream with the given settings. *)
Definition good_on (w : nat) (l : bool) (sb : streambuf) : ostream :=
  {| rdbuf := sb; failed := false; width := w; adjust_left := l |}.

(** Does a call of [overflow] treat its character as the first of a
    line? *)
Definition at_line_start (b : CTeeBuf) : bool := forceMessage b || newline b.

(** The character a call of [overflow] with argument [c] sends on. *)
Definition emitted (c : Z) (b : CTeeBuf) : Z :=
  if forceMessage b then to_int_type nl else c.

(** What a call of [overflow] puts before that character on a
    destination whose timestamp flag is [en]. *)
Definition decoration (en : bool) (clk : ClockReading) (b : CTeeBuf) : string :=
  (if forceMessage b then String nl "" else "") ++
  (if at_line_start b && en
   then field 32 true (fst (GetTimeStamp clk b)) else "") ++
  (if forceMessage b then forcedMessage b else "").

(** [sb'] is [sb] after some more characters were offered to it:
    nothing already in the trace is removed or changed. *)
Definition extends (sb sb' : streambuf) : Prop :=
  put_ok sb' = put_ok sb /\ sync_ok sb' = sync_ok sb /\
  exists l, trace sb' = (trace sb ++ l)%list /\ syncs l = O.

(** Did [overflow] read the clocks in this call? *)
Definition stamp_due (b : CTeeBuf) : bool :=
  at_line_start b && (timeStampEnabledStream1 b || timeStampEnabledStream2 b).

(** A string with no line break before its last character. *)
Fixpoint one_line (s : string) : bool :=
  match s with
  | EmptyString => true
  | String a s' =>
      match s' with
      | EmptyString => true
      | String _ _ => negb (Ascii.eqb a nl) && one_line s'
      end
  end.

(** Sample texts. *)
Definition hello : string := "hello" ++ String nl "".
Definition hi : string := "hi" ++ String nl "".

(** The force flag is clear, and the retained timestamp is the last
    value [GetTimeStamp] returned (the empty string when it was never
    called). *)
Definition settled (b : CTeeBuf) : Prop :=
  forceMessage b = false /\ timeStamp b = last (stamps b) "".

(** ** Shape of a timestamp *)

Definition is_digit (c : ascii) : bool :=
  ((48 <=? N_of_ascii c) && (N_of_ascii c <=? 57))%N.

Fixpoint all_digits (s : string) : bool :=
  match s with
  | EmptyString => true
  | String c s' => is_digit c && all_digits s'
  end.

(** A decimal numeral: digits only, at least one, and no zero in front
    of another digit. *)
Definition numeral (s : string) : Prop :=
  s <> "" /\ all_digits s = true /\
  (s = "0" \/ forall s', s <> String "0" s').

(** The numeral that reads as [v]. *)
Definition numeral_of (v : Z) (s : string) : Prop :=
  numeral s /\ option_map Z.of_int (NilEmpty.int_of_string s) = Some v.

(** Seconds with a fraction: an optional minus sign, a numeral, a point
    and six digits. *)
Definition fixed_point (s : string) : Prop :=
  exists sign ip fp : string,
    s = sign ++ ip ++ "." ++ fp /\
    (sign = "" \/ sign = "-") /\
    numeral ip /\ all_digits fp = true /\ String.length fp = 6%nat.

Definition finite (x : double) : bool :=
  match x with
  | S754_zero _ | S754_finite _ _ _ => true
  | S754_infinity _ | S754_nan => false
  end.

(** The duration that a call of [GetTimeStamp] prints. *)
Definition elapsed (clk : ClockReading) (b : CTeeBuf) : double :=
  duration_double
    (wrap64 (hr_now clk - (if clockStarted b then start b else hr_first clk))).

(** Calendar fields as [localtime] gives them for a four-digit year. *)
Definition calendar (t : tm) : Prop :=
  1000 <= tm_year t + 1900 <= 9999 /\
  0 <= tm_mon t <= 11 /\ 1 <= tm_mday t <= 31 /\
  0 <= tm_hour t <= 23 /\ 0 <= tm_min t <= 59 /\ 0 <= tm_sec t <= 60.

(** [P] holds of the [n] integers from [lo] on. *)
Fixpoint all_from (P : Z -> bool) (n : nat) (lo : Z) : bool :=
  match n with
  | O => true
  | S k => P lo && all_from P k (lo + 1)
  end.

(** ** Magnitudes of binary64 values *)

(** [m * 2^e] is below [2^D]. *)
Definition below (D m e : Z) : Prop := 0 <= m < 2 ^ Z.max 0 (D - e).

(** A float that is zero, or finite with magnitude below [2^D] and
    exponent at most [E]. *)
Definition within (D E : Z) (x : spec_float) : Prop :=
  match x with
  | S754_zero _ => True
  | S754_finite _ m e => below D (Zpos m) e /\ e <= E
  | _ => False
  end.

(** ** Vocabulary of the further properties *)

(** The clock members of a tee buffer and what was computed from them. *)
Definition clock_state (b : CTeeBuf) : bool * Z * Z * string * list string :=
  (clockStarted b, start b, now b, timeStamp b, stamps b).

Definition is_flush (k : call) : bool :=
  match k with CFlush => true | _ => false end.

Definition is_enable (k : call) : bool :=
  match k with CEnable1 | CEnable2 => true | _ => false end.

(** The first timestamp flag after the calls [ks], from the value [v]. *)
Fixpoint flag1_after (ks : list call) (v : bool) : bool :=
  match ks with
  | [] => v
  | CEnable1 :: ks' => flag1_after ks' true
  | CDisable1 :: ks' => flag1_after ks' false
  | _ :: ks' => flag1_after ks' v
  end.

(** The second timestamp flag after the calls [ks], from the value [v]. *)
Fixpoint flag2_after (ks : list call) (v : bool) : bool :=
  match ks with
  | [] => v
  | CEnable2 :: ks' => flag2_after ks' true
  | CDisable2 :: ks' => flag2_after ks' false
  | _ :: ks' => flag2_after ks' v
  end.

(** How many characters of [s] begin a line, when the first one does
    exactly if [at_start]. *)
Fixpoint line_starts (at_start : bool) (s : string) : nat :=
  match s with
  | EmptyString => O
  | String a s' =>
      ((if at_start then 1 else 0) + line_starts (Ascii.eqb a nl) s')%nat
  end.

(** The first [n] characters of [s]. *)
Definition prefix_of (n : nat) (s : string) : string := substring 0 n s.


(** Calendar fields that are not negative, as [localtime] gives them
    for any date of the common era. *)
Definition dated (t : tm) : Prop :=
  0 <= tm_year t + 1900 /\ 0 <= tm_mon t + 1 /\ 0 <= tm_mday t /\
  0 <= tm_hour t /\ 0 <= tm_min t /\ 0 <= tm_sec t.

(** [m * 2^e] is at most [N / 2^1100]: an upper bound on a magnitude,
    scaled so that every binary64 exponent gives an integer. *)
Definition upto (N m e : Z) : Prop := m * 2 ^ (e + 1100) <= N.

(** A float that is not negative and at most [N / 2^1100]. *)
Definition nonneg_upto (N : Z) (x : spec_float) : Prop :=
  match x with
  | S754_zero s => s = false
  | S754_finite s m e => s = false /\ -1100 <= e /\ upto N (Zpos m) e
  | _ => False
  end.

(** The mantissa of the double [10^9], whose exponent is [-23]. *)
Definition giga : positive := 8388608000000000.

(** * Properties *)

(** ** Strings *)

Lemma append_nil_r (s : string) : s ++ "" = s.
Proof. induction s as [|a s IH]; simpl; congruence. Qed.

Lemma append_assoc (s t u : string) : (s ++ t) ++ u = s ++ (t ++ u).
Proof. induction s as [|a s IH]; simpl; congruence. Qed.

Lemma length_append (s t : string) :
  String.length (s ++ t) = (String.length s + String.length t)%nat.
Proof. induction s as [|a s IH]; simpl; congruence. Qed.

Lemma length_spaces (n : nat) : String.length (spaces n) = n.
Proof. induction n; simpl; congruence. Qed.

Lemma length_field (w : nat) (l : bool) (s : string) :
  String.length (field w l s) = Nat.max w (String.length s).
Proof.
  unfold field; destruct l; rewrite length_append, length_spaces; lia.
Qed.

Lemma field_0 (l : bool) (s : string) : field O l s = s.
Proof. unfold field; destruct l; simpl; now rewrite ?append_nil_r. Qed.

(** ** Destinations *)

Lemma puts_app (s t : string) : puts (s ++ t) = (puts s ++ puts t)%list.
Proof. induction s as [|a s IH]; simpl; congruence. Qed.

Lemma taken_app (t u : list event) : taken (t ++ u) = taken t ++ taken u.
Proof.
  induction t as [|[c [|]|ok] t IH]; simpl; congruence.
Qed.

Lemma taken_puts (s : string) : taken (puts s) = s.
Proof. induction s as [|a s IH]; simpl; congruence. Qed.

Lemma push_nil (sb : streambuf) : push "" sb = sb.
Proof. destruct sb; unfold push; simpl; now rewrite List.app_nil_r. Qed.

Lemma push_push (s t : string) (sb : streambuf) :
  push t (push s sb) = push (s ++ t) sb.
Proof. unfold push; simpl. now rewrite puts_app, List.app_assoc. Qed.

Lemma received_push (s : string) (sb : streambuf) :
  received (push s sb) = received sb ++ s.
Proof. unfold received, push; simpl. now rewrite taken_app, taken_puts. Qed.

Lemma accepts_all_push (s : string) (sb : streambuf) :
  accepts_all sb -> accepts_all (push s sb).
Proof. intros H h c; apply H. Qed.

Lemma delivered_push (s : string) (sb : streambuf) :
  delivered sb (push s sb) = s.
Proof.
  unfold delivered, push; simpl.
  rewrite skipn_app, skipn_all, Nat.sub_diag; simpl.
  apply taken_puts.
Qed.

Lemma delivered_refl (sb : streambuf) : delivered sb sb = "".
Proof. rewrite <- (push_nil sb) at 2. apply delivered_push. Qed.

Lemma to_int_type_range (c : ascii) : 0 <= to_int_type c < 256.
Proof.
  unfold to_int_type. pose proof (N_ascii_bounded c). lia.
Qed.

Lemma to_int_type_not_EOF (c : ascii) : (to_int_type c =? EOF) = false.
Proof.
  pose proof (to_int_type_range c). unfold EOF. apply Z.eqb_neq. lia.
Qed.

Lemma to_char_to_int (c : ascii) : to_char_type (to_int_type c) = c.
Proof.
  unfold to_char_type. pose proof (to_int_type_range c).
  rewrite Z.mod_small by lia. unfold to_int_type.
  rewrite N2Z.id. apply ascii_N_embedding.
Qed.

#[local] Arguments sputc : simpl never.
#[local] Arguments to_int_type : simpl never.
#[local] Arguments to_char_type : simpl never.

Lemma sputc_accepts (c : ascii) (sb : streambuf) :
  accepts_all sb -> sputc c sb = (to_int_type c, push (String c "") sb).
Proof. intros H. unfold sputc. now rewrite H. Qed.

Lemma sputn_accepts (s : string) : forall sb,
  accepts_all sb -> sputn s sb = (String.length s, push s sb).
Proof.
  induction s as [|a s IH]; intros sb H; cbn [sputn String.length].
  - now rewrite push_nil.
  - rewrite (sputc_accepts a sb H), to_int_type_not_EOF.
    rewrite IH by now apply accepts_all_push.
    now rewrite push_push.
Qed.

(** ** Output streams on a destination that takes everything *)

Lemma ostream_write_accepts (s : string) (w : nat) (l : bool) (sb : streambuf) :
  accepts_all sb ->
  ostream_write s (good_on w l sb) = good_on w l (push s sb).
Proof.
  intros H. unfold ostream_write; cbn [rdbuf good_on].
  rewrite (sputn_accepts s sb H). unfold with_rdbuf, good_on; simpl.
  now rewrite Nat.eqb_refl.
Qed.

Lemma ostream_fill_accepts (n : nat) : forall (w : nat) (l : bool) (sb : streambuf),
  accepts_all sb ->
  ostream_fill n (good_on w l sb) = good_on w l (push (spaces n) sb).
Proof.
  induction n as [|n IH]; intros w l sb H; cbn [ostream_fill spaces rdbuf good_on].
  - now rewrite push_nil.
  - rewrite (sputc_accepts _ sb H), to_int_type_not_EOF.
    unfold with_rdbuf; simpl. fold (good_on w l (push (String " "%char "") sb)).
    rewrite IH by now apply accepts_all_push.
    now rewrite push_push.
Qed.

Lemma insert_accepts (s : string) (w : nat) (l : bool) (sb : streambuf) :
  accepts_all sb ->
  good_on w l sb << s = good_on O l (push (field w l s) sb).
Proof.
  intros H. unfold insert, field; simpl.
  destruct (Nat.ltb_spec (String.length s) w) as [Hlt|Hge].
  - destruct l; simpl.
    + rewrite (ostream_write_accepts s w true sb H); simpl.
      rewrite ostream_fill_accepts by now apply accepts_all_push.
      now rewrite push_push.
    + rewrite (ostream_fill_accepts _ w false sb H); simpl.
      rewrite ostream_write_accepts by now apply accepts_all_push.
      now rewrite push_push.
  - rewrite (ostream_write_accepts s w l sb H).
    replace (w - String.length s)%nat with O by lia; simpl.
    destruct l; simpl; now rewrite ?append_nil_r.
Qed.

(** ** One call of [overflow] on destinations that take everything *)

#[local] Arguments insert : simpl never.
#[local] Arguments GetTimeStamp : simpl never.

Lemma ostream_on_good (sb : streambuf) : ostream_on sb = good_on O false sb.
Proof. reflexivity. Qed.

Lemma left_setw_good (n w : nat) (l : bool) (sb : streambuf) :
  std_left (setw n (good_on w l sb)) = good_on n true sb.
Proof. reflexivity. Qed.

Lemma GetTimeStamp_set_newline (clk : ClockReading) (v : bool) (b : CTeeBuf) :
  fst (GetTimeStamp clk (set_newline v b)) = fst (GetTimeStamp clk b).
Proof. reflexivity. Qed.

Ltac accepts := repeat apply accepts_all_push; assumption.

Ltac tee_cbn :=
  cbn [set_sbs set_clock set_newline set_timeStamp set_forceMessage
       set_forcedMessage set_timeStampEnabledStream1
       set_timeStampEnabledStream2
       sb1 sb2 timeStampEnabledStream1 timeStampEnabledStream2 timeStamp
       forceMessage forcedMessage clockStarted start now newline stamps
       rdbuf good_on orb andb fst snd].

Ltac tee_steps :=
  repeat first
    [ rewrite ostream_on_good
    | rewrite left_setw_good
    | rewrite insert_accepts by accepts
    | rewrite sputc_accepts by accepts
    | rewrite to_int_type_not_EOF
    | rewrite push_push
    | progress tee_cbn ].

Lemma GetTimeStamp_eq (clk : ClockReading) (b : CTeeBuf) :
  GetTimeStamp clk b =
  (fst (GetTimeStamp clk b),
   set_clock true (if clockStarted b then start b else hr_first clk)
     (hr_now clk) (fst (GetTimeStamp clk b)) b).
Proof. reflexivity. Qed.

Lemma overflow_accepts (clk : ClockReading) (c : Z) (b : CTeeBuf) :
  c <> EOF -> accepts_all (sb1 b) -> accepts_all (sb2 b) ->
  let b' := snd (overflow clk c b) in
  let ch := to_char_type (emitted c b) in
  fst (overflow clk c b) = emitted c b /\
  sb1 b' = push (decoration (timeStampEnabledStream1 b) clk b ++ String ch "") (sb1 b) /\
  sb2 b' = push (decoration (timeStampEnabledStream2 b) clk b ++ String ch "") (sb2 b) /\
  newline b' = Ascii.eqb ch nl /\
  forceMessage b' = false /\
  forcedMessage b' = forcedMessage b /\
  timeStampEnabledStream1 b' = timeStampEnabledStream1 b /\
  timeStampEnabledStream2 b' = timeStampEnabledStream2 b.
Proof.
  intros Hc H1 H2.
  unfold overflow, emitted, decoration, at_line_start.
  apply Z.eqb_neq in Hc; rewrite Hc.
  destruct b as [s1 s2 e1 e2 ts fm fmsg cs st nw nwl stp]; tee_cbn; cbn [sb1 sb2] in *.
  destruct fm, nwl, e1, e2; tee_cbn;
    try rewrite GetTimeStamp_eq;
    tee_steps;
    rewrite ?GetTimeStamp_set_newline, ?to_char_to_int, ?field_0;
    rewrite ?append_assoc, ?append_nil_r;
    cbn [String.append];
    repeat split; reflexivity.
Qed.

(** ** Destinations only grow *)

Lemma extends_refl (sb : streambuf) : extends sb sb.
Proof.
  repeat split; try reflexivity. exists []. now rewrite List.app_nil_r.
Qed.

Lemma extends_trans (a b c : streambuf) :
  extends a b -> extends b c -> extends a c.
Proof.
  intros (P1 & S1 & l1 & T1 & N1) (P2 & S2 & l2 & T2 & N2).
  repeat split; try congruence.
  exists (l1 ++ l2)%list. rewrite T2, T1, List.app_assoc. split; [reflexivity|].
  clear -N1 N2. induction l1 as [|[c ok|ok] l1 IH]; simpl in *; auto; discriminate.
Qed.

Lemma extends_sputc (c : ascii) (sb : streambuf) : extends sb (snd (sputc c sb)).
Proof.
  repeat split; try reflexivity. now eexists [_].
Qed.

Lemma extends_sputn (s : string) : forall sb, extends sb (snd (sputn s sb)).
Proof.
  induction s as [|a s IH]; intros sb; cbn [sputn].
  - apply extends_refl.
  - pose proof (extends_sputc a sb) as E.
    destruct (sputc a sb) as [r sb']; cbn [snd] in E.
    destruct (r =? EOF); [exact E|].
    specialize (IH sb'). destruct (sputn s sb') as [n sb'']; cbn [snd] in *.
    eapply extends_trans; eassumption.
Qed.

Lemma extends_write (s : string) (os : ostream) :
  extends (rdbuf os) (rdbuf (ostream_write s os)).
Proof.
  unfold ostream_write. pose proof (extends_sputn s (rdbuf os)) as E.
  destruct (sputn s (rdbuf os)); exact E.
Qed.

Lemma extends_fill (n : nat) : forall os,
  extends (rdbuf os) (rdbuf (ostream_fill n os)).
Proof.
  induction n as [|n IH]; intros os; cbn [ostream_fill].
  - apply extends_refl.
  - pose proof (extends_sputc " "%char (rdbuf os)) as E.
    destruct (sputc " "%char (rdbuf os)) as [r sb]; cbn [snd] in E.
    destruct (r =? EOF); [exact E|].
    eapply extends_trans; [exact E|]. apply (IH (with_rdbuf sb false os)).
Qed.

Lemma extends_insert (s : string) (os : ostream) :
  extends (rdbuf os) (rdbuf (os << s)).
Proof.
  unfold insert. destruct (failed os); [apply extends_refl|].
  cbn [rdbuf setw].
  destruct (Nat.ltb (String.length s) (width os)); [|apply extends_write].
  destruct (adjust_left os); cbn [andb].
  - destruct (negb (failed (if failed os then os else ostream_write s os))).
    + eapply extends_trans; [|apply extends_fill].
      destruct (failed os); [apply extends_refl|apply extends_write].
    + destruct (failed os); [apply extends_refl|apply extends_write].
  - destruct (failed (ostream_fill (width os - String.length s) os)).
    + apply extends_fill.
    + eapply extends_trans; [apply extends_fill|apply extends_write].
Qed.

Lemma extends_received (sb sb' : streambuf) :
  extends sb sb' -> exists x, received sb' = received sb ++ x.
Proof.
  intros (_ & _ & l & T & _). exists (taken l).
  unfold received. now rewrite T, taken_app.
Qed.

(** ** One call of [overflow], whatever the destinations do *)

Lemma extends_stamped (n : nat) (s : string) (sb : streambuf) (os : ostream) :
  extends sb (rdbuf os) -> extends sb (rdbuf (std_left (setw n os) << s)).
Proof.
  intros E. eapply extends_trans; [exact E|].
  apply (extends_insert s (std_left (setw n os))).
Qed.

Lemma extends_inserted (s : string) (sb : streambuf) (os : ostream) :
  extends sb (rdbuf os) -> extends sb (rdbuf (os << s)).
Proof.
  intros E. eapply extends_trans; [exact E|]. apply extends_insert.
Qed.

Lemma extends_on (sb : streambuf) : extends sb (rdbuf (ostream_on sb)).
Proof. apply extends_refl. Qed.

Create HintDb tee.

#[local] Hint Resolve extends_refl extends_on extends_stamped extends_inserted
  : tee.

Lemma overflow_shape (clk : ClockReading) (c : Z) (b : CTeeBuf) :
  c <> EOF ->
  let b' := snd (overflow clk c b) in
  let ch := to_char_type (emitted c b) in
  exists p1 p2 : streambuf,
    sb1 b' = snd (sputc ch p1) /\
    sb2 b' = snd (sputc ch p2) /\
    fst (overflow clk c b) =
      (if (fst (sputc ch p1) =? EOF) || (fst (sputc ch p2) =? EOF)
       then EOF else emitted c b) /\
    extends (sb1 b) p1 /\ extends (sb2 b) p2 /\
    (at_line_start b = false -> p1 = sb1 b /\ p2 = sb2 b).
Proof.
  intros Hc.
  unfold overflow, emitted, at_line_start.
  apply Z.eqb_neq in Hc; rewrite Hc.
  destruct b as [s1 s2 e1 e2 ts fm fmsg cs st nw nwl stp]; tee_cbn.
  destruct fm, nwl, e1, e2; tee_cbn;
    try rewrite GetTimeStamp_eq; tee_cbn;
    unfold sputc; tee_cbn;
    eexists _, _;
    (split; [reflexivity|]); (split; [reflexivity|]); (split; [reflexivity|]);
    (split; [auto 6 with tee|]); (split; [auto 6 with tee|]);
    intros; try discriminate; split; reflexivity.
Qed.

Lemma overflow_control (clk : ClockReading) (c : Z) (b : CTeeBuf) :
  c <> EOF ->
  let b' := snd (overflow clk c b) in
  newline b' = Ascii.eqb (to_char_type (emitted c b)) nl /\
  forceMessage b' = false /\
  forcedMessage b' = forcedMessage b /\
  timeStampEnabledStream1 b' = timeStampEnabledStream1 b /\
  timeStampEnabledStream2 b' = timeStampEnabledStream2 b /\
  timeStamp b' =
    (if stamp_due b then fst (GetTimeStamp clk b) else timeStamp b) /\
  stamps b' =
    (if stamp_due b then stamps b ++ [fst (GetTimeStamp clk b)] else stamps b)%list.
Proof.
  intros Hc.
  unfold overflow, emitted, stamp_due, at_line_start.
  apply Z.eqb_neq in Hc; rewrite Hc.
  destruct b as [s1 s2 e1 e2 ts fm fmsg cs st nw nwl stp]; tee_cbn.
  destruct fm, nwl, e1, e2; tee_cbn;
    try rewrite GetTimeStamp_eq; tee_cbn;
    unfold sputc; tee_cbn;
    rewrite ?GetTimeStamp_set_newline; repeat split; reflexivity.
Qed.

(** ** Writing a string through the tee buffer *)

Lemma emitted_not_EOF (c : Z) (b : CTeeBuf) :
  c <> EOF -> (emitted c b =? EOF) = false.
Proof.
  intros Hc. unfold emitted. destruct (forceMessage b).
  - apply to_int_type_not_EOF.
  - now apply Z.eqb_neq.
Qed.

Lemma to_int_type_neq_EOF (c : ascii) : to_int_type c <> EOF.
Proof. apply Z.eqb_neq, to_int_type_not_EOF. Qed.

Lemma decoration_plain (en : bool) (clk : ClockReading) (b : CTeeBuf) :
  forceMessage b = false -> at_line_start b && en = false ->
  decoration en clk b = "".
Proof. intros F L. unfold decoration. now rewrite F, L. Qed.

Lemma tee_sputn_accepts (s : string) : forall (clk : nat -> ClockReading) (b : CTeeBuf),
  accepts_all (sb1 b) -> accepts_all (sb2 b) ->
  let b' := snd (tee_sputn clk s b) in
  fst (tee_sputn clk s b) = String.length s /\
  timeStampEnabledStream1 b' = timeStampEnabledStream1 b /\
  timeStampEnabledStream2 b' = timeStampEnabledStream2 b /\
  exists x1 x2 : string,
    sb1 b' = push x1 (sb1 b) /\ sb2 b' = push x2 (sb2 b) /\
    (timeStampEnabledStream1 b = timeStampEnabledStream2 b -> x1 = x2) /\
    (timeStampEnabledStream1 b = false -> forceMessage b = false -> x1 = s) /\
    (timeStampEnabledStream2 b = false -> forceMessage b = false -> x2 = s).
Proof.
  induction s as [|a s IH]; intros clk b H1 H2; cbn [tee_sputn fst snd String.length].
  - repeat split. exists "", "". now rewrite !push_nil.
  - unfold tee_sputc.
    destruct (overflow_accepts (clk O) (to_int_type a) b
                (to_int_type_neq_EOF a) H1 H2)
      as (R & S1 & S2 & _ & F & _ & E1 & E2).
    destruct (overflow (clk O) (to_int_type a) b) as [r b1]; cbn [fst snd] in *.
    rewrite R, (emitted_not_EOF _ b (to_int_type_neq_EOF a)).
    assert (A1 : accepts_all (sb1 b1)) by (rewrite S1; now apply accepts_all_push).
    assert (A2 : accepts_all (sb2 b1)) by (rewrite S2; now apply accepts_all_push).
    destruct (IH (fun i => clk (S i)) b1 A1 A2) as (N & T1 & T2 & x1 & x2 & P1 & P2 & Q & U1 & U2).
    destruct (tee_sputn (fun i => clk (S i)) s b1) as [n b2]; cbn [fst snd] in *.
    split; [congruence|]. split; [congruence|]. split; [congruence|].
    eexists _, _. split; [rewrite P1, S1, push_push; reflexivity|].
    split; [rewrite P2, S2, push_push; reflexivity|].
    split; [|split].
    + intros Eq. rewrite Eq, Q by congruence. reflexivity.
    + intros En Fm. rewrite U1 by congruence.
      rewrite decoration_plain by (rewrite ?En; auto using andb_false_r).
      unfold emitted; rewrite Fm, to_char_to_int. reflexivity.
    + intros En Fm. rewrite U2 by congruence.
      rewrite decoration_plain by (rewrite ?En; auto using andb_false_r).
      unfold emitted; rewrite Fm, to_char_to_int. reflexivity.
Qed.

(** Past the first character of a line nothing is added. *)
Lemma tee_sputn_midline (s : string) : forall (clk : nat -> ClockReading) (b : CTeeBuf),
  accepts_all (sb1 b) -> accepts_all (sb2 b) ->
  forceMessage b = false -> newline b = false -> one_line s = true ->
  let b' := snd (tee_sputn clk s b) in
  sb1 b' = push s (sb1 b) /\ sb2 b' = push s (sb2 b).
Proof.
  induction s as [|a s IH]; intros clk b H1 H2 Fm Nl Hs; cbn [tee_sputn fst snd].
  - now rewrite !push_nil.
  - unfold tee_sputc.
    destruct (overflow_accepts (clk O) (to_int_type a) b
                (to_int_type_neq_EOF a) H1 H2)
      as (R & S1 & S2 & N & F & _ & E1 & E2).
    destruct (overflow (clk O) (to_int_type a) b) as [r b1]; cbn [fst snd] in *.
    rewrite R, (emitted_not_EOF _ b (to_int_type_neq_EOF a)).
    rewrite !decoration_plain in S1, S2
      by (unfold at_line_start; rewrite ?Fm, ?Nl; reflexivity).
    unfold emitted in *; rewrite Fm, to_char_to_int in *. cbn [String.append] in *.
    destruct s as [|a' s'].
    + cbn [tee_sputn snd]. now rewrite S1, S2.
    + cbn [one_line] in Hs. apply andb_prop in Hs as [Ha Hs].
      assert (A1 : accepts_all (sb1 b1)) by (rewrite S1; now apply accepts_all_push).
      assert (A2 : accepts_all (sb2 b1)) by (rewrite S2; now apply accepts_all_push).
      assert (N1 : newline b1 = false).
      { rewrite N. now destruct (Ascii.eqb a nl). }
      destruct (IH (fun i => clk (S i)) b1 A1 A2 F N1 Hs) as (P1 & P2).
      destruct (tee_sputn (fun i => clk (S i)) (String a' s') b1) as [n b2];
        cbn [fst snd] in *.
      now rewrite P1, P2, S1, S2, !push_push.
Qed.

(** A line written from its start: the stamp, where enabled, then the
    line. *)
Lemma tee_sputn_line (s : string) (clk : nat -> ClockReading) (b : CTeeBuf) :
  accepts_all (sb1 b) -> accepts_all (sb2 b) ->
  forceMessage b = false -> newline b = true ->
  one_line s = true -> s <> "" ->
  let b' := snd (tee_sputn clk s b) in
  let ts := fst (GetTimeStamp (clk O) b) in
  sb1 b' = push ((if timeStampEnabledStream1 b then field 32 true ts else "") ++ s) (sb1 b) /\
  sb2 b' = push ((if timeStampEnabledStream2 b then field 32 true ts else "") ++ s) (sb2 b).
Proof.
  intros H1 H2 Fm Nl Hs Hne.
  destruct s as [|a s]; [congruence|]. cbn [tee_sputn fst snd].
  unfold tee_sputc.
  destruct (overflow_accepts (clk O) (to_int_type a) b
              (to_int_type_neq_EOF a) H1 H2)
    as (R & S1 & S2 & N & F & _ & E1 & E2).
  destruct (overflow (clk O) (to_int_type a) b) as [r b1]; cbn [fst snd] in *.
  rewrite R, (emitted_not_EOF _ b (to_int_type_neq_EOF a)).
  unfold decoration, at_line_start, emitted in S1, S2, N.
  rewrite Fm, Nl, ?to_char_to_int in *. cbn [orb andb String.append] in *.
  rewrite append_nil_r in S1, S2.
  destruct s as [|a' s'].
  - cbn [tee_sputn snd]. rewrite S1, S2.
    split; f_equal; destruct (timeStampEnabledStream1 b), (timeStampEnabledStream2 b);
      reflexivity.
  - cbn [one_line] in Hs. apply andb_prop in Hs as [Ha Hs].
    assert (A1 : accepts_all (sb1 b1)) by (rewrite S1; now apply accepts_all_push).
    assert (A2 : accepts_all (sb2 b1)) by (rewrite S2; now apply accepts_all_push).
    assert (N1 : newline b1 = false).
    { rewrite N. now destruct (Ascii.eqb a nl). }
    destruct (tee_sputn_midline (String a' s') (fun i => clk (S i)) b1 A1 A2 F N1 Hs)
      as (P1 & P2).
    destruct (tee_sputn (fun i => clk (S i)) (String a' s') b1) as [n b2];
      cbn [fst snd] in *.
    rewrite P1, P2, S1, S2, !push_push.
    split; f_equal; destruct (timeStampEnabledStream1 b), (timeStampEnabledStream2 b);
      cbn [String.append]; rewrite ?append_assoc; reflexivity.
Qed.

(** ** The same characters on both destinations (C1) *)

Lemma accepts_all_stringbuf : accepts_all stringbuf.
Proof. intros h c. reflexivity. Defined.

(** C1, as stated, fails when a destination refuses characters: with
    timestamps disabled on both, ["hello\n"] written to a tee whose first
    destination is a closed buffer and whose second takes everything
    delivers nothing to the first and ["h"] to the second. *)
Lemma closed_destination_diverges :
  let d := DStream_new closedbuf stringbuf in
  let d' := DStream_insert (fun _ => clk0) hello d in
  timeStampEnabledStream1 (tbuf d) = timeStampEnabledStream2 (tbuf d) /\
  delivered (sb1 (tbuf d)) (sb1 (tbuf d')) = "" /\
  delivered (sb2 (tbuf d)) (sb2 (tbuf d')) = "h" /\
  delivered (sb1 (tbuf d)) (sb1 (tbuf d')) <> delivered (sb2 (tbuf d)) (sb2 (tbuf d')).
Proof.
  cbv zeta. repeat split; try reflexivity. vm_compute. discriminate.
Qed.

(** C1, amended: when neither destination refuses a character, a
    string written through the tee stream delivers the same characters
    in the same order to both destinations whenever their timestamp
    flags are equal; with both flags off and no forced message pending,
    each destination is delivered exactly the string written. *)
Theorem tee_delivers_same_sequence
    (clk : nat -> ClockReading) (s : string) (d : DStream) :
  accepts_all (sb1 (tbuf d)) -> accepts_all (sb2 (tbuf d)) ->
  timeStampEnabledStream1 (tbuf d) = timeStampEnabledStream2 (tbuf d) ->
  let d' := DStream_insert clk s d in
  delivered (sb1 (tbuf d)) (sb1 (tbuf d')) =
    delivered (sb2 (tbuf d)) (sb2 (tbuf d')) /\
  (ios_failed d = false -> forceMessage (tbuf d) = false ->
   timeStampEnabledStream1 (tbuf d) = false ->
   delivered (sb1 (tbuf d)) (sb1 (tbuf d')) = s /\
   delivered (sb2 (tbuf d)) (sb2 (tbuf d')) = s).
Proof.
  intros H1 H2 En. unfold DStream_insert.
  destruct (ios_failed d) eqn:Fd.
  - cbv zeta. rewrite !delivered_refl. split; [reflexivity|discriminate].
  - destruct (tee_sputn_accepts s clk (tbuf d) H1 H2)
      as (_ & _ & _ & x1 & x2 & P1 & P2 & Q & U1 & U2).
    destruct (tee_sputn clk s (tbuf d)) as [n b']; cbn [fst snd tbuf] in *.
    rewrite P1, P2, !delivered_push. split; [now apply Q|].
    intros _ Fm E1. split; [apply U1|apply U2]; congruence.
Qed.

Lemma tee_delivers_same_sequence_hello :
  let d := DStream_new stringbuf stringbuf in
  let d' := DStream_insert (fun _ => clk0) hello d in
  timeStampEnabledStream1 (tbuf d) = timeStampEnabledStream2 (tbuf d) /\
  delivered (sb1 (tbuf d)) (sb1 (tbuf d')) = hello /\
  delivered (sb2 (tbuf d)) (sb2 (tbuf d')) = hello.
Proof.
  split; [reflexivity|].
  apply (tee_delivers_same_sequence (fun _ => clk0) hello
           (DStream_new stringbuf stringbuf)
           accepts_all_stringbuf accepts_all_stringbuf eq_refl);
    reflexivity.
Defined.

(** ** Forced messages (C2, C10) *)

Lemma wait_forced_clear (fuel : nat) (b : CTeeBuf) :
  forceMessage b = false -> wait_forced fuel b = Some O.
Proof. intros H. destruct fuel; cbn [wait_forced]; now rewrite H. Qed.

(** C2, as stated, fails: after [ForceMessage("alert")] on a fresh tee
    without timestamps whose destinations take everything, each
    destination holds a line break, ["alert\n"] and one more line
    break, not just a line break and ["alert\n"]. *)
Lemma ForceMessage_alert_second_newline :
  exists d',
    ForceMessage 0 clk0 "alert" (DStream_new stringbuf stringbuf) = Some (O, d') /\
    received (sb1 (tbuf d')) = String nl ("alert" ++ String nl (String nl "")) /\
    received (sb2 (tbuf d')) = String nl ("alert" ++ String nl (String nl "")) /\
    received (sb1 (tbuf d')) <> String nl ("alert" ++ String nl "").
Proof.
  eexists. split; [reflexivity|]. repeat split. vm_compute. discriminate.
Qed.

(** C2, amended: when neither destination refuses a character,
    [ForceMessage(message)] returns without waiting, after each
    destination was delivered a line break, then (where its timestamp
    flag is on) the timestamp set left in 32 columns, then the message
    and a line break, then one more line break (the character sent on,
    replaced by a line break); the force flag is then clear and the tee
    is at a line start. *)
Theorem ForceMessage_delivers
    (fuel : nat) (clk : ClockReading) (message : string) (d : DStream) :
  accepts_all (sb1 (tbuf d)) -> accepts_all (sb2 (tbuf d)) ->
  let ts := fst (GetTimeStamp clk (tbuf d)) in
  let text (en : bool) :=
    String nl "" ++ (if en then field 32 true ts else "") ++
    message ++ String nl "" ++ String nl "" in
  exists d',
    ForceMessage fuel clk message d = Some (O, d') /\
    delivered (sb1 (tbuf d)) (sb1 (tbuf d')) =
      text (timeStampEnabledStream1 (tbuf d)) /\
    delivered (sb2 (tbuf d)) (sb2 (tbuf d')) =
      text (timeStampEnabledStream2 (tbuf d)) /\
    forceMessage (tbuf d') = false /\
    newline (tbuf d') = true.
Proof.
  intros H1 H2 ts text. unfold ForceMessage, tee_sputc.
  set (b0 := set_forceMessage true
               (set_forcedMessage (message ++ String nl "") (tbuf d))).
  destruct (overflow_accepts clk (to_int_type nl) b0
              (to_int_type_neq_EOF nl) H1 H2)
    as (_ & S1 & S2 & N & F & _).
  destruct (overflow clk (to_int_type nl) b0) as [r b1]; cbn [fst snd] in *.
  rewrite (wait_forced_clear fuel b1 F).
  eexists. split; [reflexivity|]. cbn [tbuf].
  change (sb1 b0) with (sb1 (tbuf d)) in S1.
  change (sb2 b0) with (sb2 (tbuf d)) in S2.
  rewrite S1, S2, !delivered_push.
  unfold decoration, at_line_start, emitted, text in *.
  change (forceMessage b0) with true in *.
  change (forcedMessage b0) with (message ++ String nl "") in *.
  change (timeStampEnabledStream1 b0) with (timeStampEnabledStream1 (tbuf d)).
  change (timeStampEnabledStream2 b0) with (timeStampEnabledStream2 (tbuf d)).
  change (fst (GetTimeStamp clk b0)) with ts.
  cbn [orb andb]. rewrite to_char_to_int. cbn [orb andb] in N.
  rewrite to_char_to_int in N.
  rewrite !append_assoc.
  repeat split; auto.
Qed.

Lemma ForceMessage_delivers_alert :
  exists d',
    ForceMessage 0 clk0 "alert" (DStream_new_ts stringbuf stringbuf true false)
      = Some (O, d') /\
    received (sb1 (tbuf d')) =
      String nl ("[2019-3-7|9:5:0|0.000002]       alert" ++ String nl (String nl "")) /\
    received (sb2 (tbuf d')) = String nl ("alert" ++ String nl (String nl "")) /\
    forceMessage (tbuf d') = false.
Proof.
  destruct (ForceMessage_delivers 0 clk0 "alert"
              (DStream_new_ts stringbuf stringbuf true false)
              accepts_all_stringbuf accepts_all_stringbuf)
    as (d' & E & D1 & D2 & F & _).
  exists d'. repeat split; [exact E|exact D1|exact D2|exact F].
Defined.

Lemma ForceMessage_returns
    (fuel : nat) (clk : ClockReading) (message : string) (d : DStream) :
  let b0 := set_forceMessage true
              (set_forcedMessage (message ++ String nl "") (tbuf d)) in
  let b1 := snd (overflow clk (to_int_type nl) b0) in
  ForceMessage fuel clk message d =
    Some (O, {| tbuf := b1; ios_failed := ios_failed d |}) /\
  forceMessage b1 = false.
Proof.
  intros b0 b1. unfold ForceMessage, tee_sputc. fold b0.
  destruct (overflow_control clk (to_int_type nl) b0 (to_int_type_neq_EOF nl))
    as (_ & F & _).
  fold b1 in F. subst b1.
  destruct (overflow clk (to_int_type nl) b0) as [r b1]; cbn [fst snd] in *.
  now rewrite (wait_forced_clear fuel b1 F).
Qed.

(** C10: on one thread [ForceMessage] always returns, whatever the
    destinations do with the characters: the call of [overflow] it
    makes leaves the force flag clear, so the wait loop's body never
    runs. *)
Theorem ForceMessage_terminates
    (fuel : nat) (clk : ClockReading) (message : string) (d : DStream) :
  exists d',
    ForceMessage fuel clk message d = Some (O, d') /\
    forceMessage (tbuf d') = false.
Proof.
  destruct (ForceMessage_returns fuel clk message d) as (E & F).
  eexists. split; [exact E|exact F].
Qed.

(** ** Line-start timestamps (C4) *)

(** C4, as stated, fails when a destination refuses characters: with
    the timestamp flag on for the first destination only, ["hi\n"]
    written to a tee whose first destination is a closed buffer
    delivers nothing to it, and only ["h"] to the second. *)
Lemma closed_destination_gets_no_stamp :
  let d := DStream_new_ts closedbuf stringbuf true false in
  let d' := DStream_insert (fun _ => clk0) hi d in
  delivered (sb1 (tbuf d)) (sb1 (tbuf d')) = "" /\
  delivered (sb2 (tbuf d)) (sb2 (tbuf d')) = "h" /\
  delivered (sb2 (tbuf d)) (sb2 (tbuf d')) <> hi.
Proof.
  cbv zeta. repeat split. vm_compute. discriminate.
Qed.

(** C4, amended: when neither destination refuses a character, a line
    written from a line start (no forced message pending) is delivered
    to each destination whose timestamp flag is on as the whole
    timestamp, then spaces up to 32 columns if it is shorter, then the
    line, and to each destination whose flag is off as the line alone. *)
Theorem line_start_timestamp_field
    (clk : nat -> ClockReading) (s : string) (d : DStream) :
  accepts_all (sb1 (tbuf d)) -> accepts_all (sb2 (tbuf d)) ->
  ios_failed d = false ->
  forceMessage (tbuf d) = false -> newline (tbuf d) = true ->
  one_line s = true -> s <> "" ->
  let d' := DStream_insert clk s d in
  let ts := fst (GetTimeStamp (clk O) (tbuf d)) in
  let stamp := ts ++ spaces (32 - String.length ts) in
  delivered (sb1 (tbuf d)) (sb1 (tbuf d')) =
    (if timeStampEnabledStream1 (tbuf d) then stamp else "") ++ s /\
  delivered (sb2 (tbuf d)) (sb2 (tbuf d')) =
    (if timeStampEnabledStream2 (tbuf d) then stamp else "") ++ s /\
  String.length stamp = Nat.max 32 (String.length ts).
Proof.
  intros H1 H2 Fd Fm Nl Hs Hne. unfold DStream_insert. rewrite Fd.
  destruct (tee_sputn_line s clk (tbuf d) H1 H2 Fm Nl Hs Hne) as (P1 & P2).
  destruct (tee_sputn clk s (tbuf d)) as [n b']; cbn [fst snd tbuf] in *.
  rewrite P1, P2, !delivered_push.
  repeat split. apply (length_field 32 true).
Qed.

Lemma line_start_timestamp_field_hi :
  let d := DStream_new_ts stringbuf stringbuf true false in
  let d' := DStream_insert (fun _ => clk0) hi d in
  delivered (sb1 (tbuf d)) (sb1 (tbuf d')) =
    "[2019-3-7|9:5:0|0.000002]       " ++ hi /\
  delivered (sb2 (tbuf d)) (sb2 (tbuf d')) = hi.
Proof.
  destruct (line_start_timestamp_field (fun _ => clk0) hi
              (DStream_new_ts stringbuf stringbuf true false)
              accepts_all_stringbuf accepts_all_stringbuf
              eq_refl eq_refl eq_refl eq_refl)
    as (D1 & D2 & _).
  - discriminate.
  - split; [exact D1|exact D2].
Defined.

(** ** Failure of a destination (C5) *)

Lemma sputc_trace (c : ascii) (sb : streambuf) :
  trace (snd (sputc c sb)) =
    (trace sb ++ [Put c (negb (fst (sputc c sb) =? EOF))])%list.
Proof.
  unfold sputc; cbn [fst snd log_event trace].
  destruct (put_ok sb (trace sb) c); [|reflexivity].
  now rewrite to_int_type_not_EOF.
Qed.

Lemma sputc_received (c : ascii) (sb : streambuf) :
  received (snd (sputc c sb)) =
    received sb ++ (if fst (sputc c sb) =? EOF then "" else String c "").
Proof.
  unfold received. rewrite sputc_trace, taken_app.
  now destruct (fst (sputc c sb) =? EOF).
Qed.

(** C5: a call of [overflow] with a character other than [EOF] offers
    the character it sends on to both destinations, each in the state
    the call's earlier output left it in; it returns [EOF] exactly when
    one of these two writes returns [EOF]; a destination that takes the
    character keeps it whatever the other one does, and nothing a
    destination held before the call is removed. *)
Theorem overflow_reports_failure (clk : ClockReading) (c : Z) (b : CTeeBuf) :
  c <> EOF ->
  let b' := snd (overflow clk c b) in
  let ch := to_char_type (emitted c b) in
  exists p1 p2 : streambuf,
    extends (sb1 b) p1 /\ extends (sb2 b) p2 /\
    sb1 b' = snd (sputc ch p1) /\ sb2 b' = snd (sputc ch p2) /\
    (fst (overflow clk c b) = EOF <->
     fst (sputc ch p1) = EOF \/ fst (sputc ch p2) = EOF) /\
    (fst (sputc ch p1) <> EOF -> received (sb1 b') = received p1 ++ String ch "") /\
    (fst (sputc ch p2) <> EOF -> received (sb2 b') = received p2 ++ String ch "") /\
    (exists x, received (sb1 b') = received (sb1 b) ++ x) /\
    (exists x, received (sb2 b') = received (sb2 b) ++ x).
Proof.
  intros Hc b' ch.
  destruct (overflow_shape clk c b Hc) as (p1 & p2 & S1 & S2 & R & X1 & X2 & _).
  fold b' ch in S1, S2, R.
  exists p1, p2. split; [exact X1|]. split; [exact X2|].
  split; [exact S1|]. split; [exact S2|].
  split; [|split; [|split; [|split]]].
  - rewrite R. pose proof (emitted_not_EOF c b Hc) as E. apply Z.eqb_neq in E.
    destruct (Z.eqb_spec (fst (sputc ch p1)) EOF) as [E1|E1];
      destruct (Z.eqb_spec (fst (sputc ch p2)) EOF) as [E2|E2];
      cbn [orb]; tauto.
  - intros E. apply Z.eqb_neq in E. now rewrite S1, sputc_received, E.
  - intros E. apply Z.eqb_neq in E. now rewrite S2, sputc_received, E.
  - apply extends_received. rewrite S1.
    eapply extends_trans; [exact X1|apply extends_sputc].
  - apply extends_received. rewrite S2.
    eapply extends_trans; [exact X2|apply extends_sputc].
Qed.

(** A call in which the first destination fails and the second one
    takes the character. *)
Lemma overflow_reports_failure_closed :
  let b := CTeeBuf_new closedbuf stringbuf in
  let r := overflow clk0 (to_int_type "a") b in
  to_int_type "a" <> EOF /\
  exists p1 p2 : streambuf,
    sb1 (snd r) = snd (sputc "a" p1) /\ sb2 (snd r) = snd (sputc "a" p2) /\
    (fst r = EOF <-> fst (sputc "a" p1) = EOF \/ fst (sputc "a" p2) = EOF) /\
    (exists x, received (sb2 (snd r)) = received stringbuf ++ x).
Proof.
  assert (N : to_int_type "a" <> EOF) by discriminate.
  split; [exact N|].
  destruct (overflow_reports_failure clk0 (to_int_type "a")
              (CTeeBuf_new closedbuf stringbuf) N)
    as (p1 & p2 & _ & _ & S1 & S2 & R & _ & _ & _ & X2).
  exists p1, p2. split; [exact S1|]. split; [exact S2|]. split; [exact R|exact X2].
Defined.

(** ** End of stream and flushing (C8, C9) *)

(** C8: [overflow(EOF)] reports success ([!EOF], that is [0], a value
    other than [EOF]) and returns the tee buffer, destinations
    included, exactly as it was. *)
Theorem overflow_EOF_is_noop (clk : ClockReading) (b : CTeeBuf) :
  fst (overflow clk EOF b) = 0 /\
  fst (overflow clk EOF b) <> EOF /\
  snd (overflow clk EOF b) = b /\
  trace (sb1 (snd (overflow clk EOF b))) = trace (sb1 b) /\
  trace (sb2 (snd (overflow clk EOF b))) = trace (sb2 b).
Proof.
  unfold overflow. rewrite Z.eqb_refl. cbn [fst snd].
  repeat split. discriminate.
Qed.

(** C9: [sync] asks both destinations to flush, the second also when
    the first fails, and returns [0] exactly when both flushes return
    [0], and [-1] otherwise; the characters held are untouched. *)
Theorem sync_forwards_to_both (b : CTeeBuf) :
  let r1 := fst (pubsync (sb1 b)) in
  let r2 := fst (pubsync (sb2 b)) in
  let b' := snd (sync b) in
  sb1 b' = snd (pubsync (sb1 b)) /\
  sb2 b' = snd (pubsync (sb2 b)) /\
  syncs (trace (sb1 b')) = S (syncs (trace (sb1 b))) /\
  syncs (trace (sb2 b')) = S (syncs (trace (sb2 b))) /\
  (fst (sync b) = 0 <-> r1 = 0 /\ r2 = 0) /\
  (fst (sync b) = -1 <-> r1 <> 0 \/ r2 <> 0) /\
  received (sb1 b') = received (sb1 b) /\
  received (sb2 b') = received (sb2 b).
Proof.
  assert (Sy : forall t ok, syncs (t ++ [Sync ok]) = S (syncs t)).
  { induction t as [|[c k|k] t IH]; intros ok; simpl; rewrite ?IH; reflexivity. }
  assert (Tk : forall t ok, taken (t ++ [Sync ok]) = taken t).
  { intros t ok. rewrite taken_app. simpl. apply append_nil_r. }
  unfold sync, pubsync, received; cbn [fst snd set_sbs sb1 sb2 log_event trace].
  rewrite !Sy, !Tk.
  destruct (sync_ok (sb1 b) (trace (sb1 b))), (sync_ok (sb2 b) (trace (sb2 b)));
    cbn; repeat split; intros; try tauto; try discriminate;
    try (left; discriminate); try (right; discriminate);
    try (exfalso; intuition congruence).
Qed.

(** ** What every call keeps true *)

Lemma settled_overflow (clk : ClockReading) (c : Z) (b : CTeeBuf) :
  timeStamp b = last (stamps b) "" ->
  (c = EOF -> forceMessage b = false) ->
  settled (snd (overflow clk c b)).
Proof.
  intros T Fe. destruct (Z.eq_dec c EOF) as [->|Hc].
  - unfold overflow. rewrite Z.eqb_refl. split; auto.
  - destruct (overflow_control clk c b Hc) as (_ & F & _ & _ & _ & Ts & St).
    split; [exact F|]. rewrite Ts, St.
    destruct (stamp_due b); [now rewrite last_last|exact T].
Qed.

Lemma settled_tee_sputn (s : string) : forall (clk : nat -> ClockReading) (b : CTeeBuf),
  settled b -> settled (snd (tee_sputn clk s b)).
Proof.
  induction s as [|a s IH]; intros clk b Hb; cbn [tee_sputn snd]; [exact Hb|].
  unfold tee_sputc.
  pose proof (settled_overflow (clk O) (to_int_type a) b (proj2 Hb)
                (fun _ => proj1 Hb)) as H1.
  destruct (overflow (clk O) (to_int_type a) b) as [r b1]; cbn [snd] in *.
  destruct (r =? EOF); [exact H1|].
  specialize (IH (fun i => clk (S i)) b1 H1).
  now destruct (tee_sputn (fun i => clk (S i)) s b1).
Qed.

Lemma settled_call (fuel : nat) (k : call) (d : DStream) :
  settled (tbuf d) ->
  exists d', do_call fuel k d = Some d' /\ settled (tbuf d').
Proof.
  intros Hd. destruct k as [clk s| | | | | |clk m]; cbn [do_call].
  - eexists; split; [reflexivity|]. unfold DStream_insert.
    destruct (ios_failed d); [exact Hd|].
    pose proof (settled_tee_sputn s clk (tbuf d) Hd) as H.
    now destruct (tee_sputn clk s (tbuf d)).
  - eexists; split; [reflexivity|]. unfold DStream_flush.
    destruct (ios_failed d); [exact Hd|]. unfold sync.
    destruct (pubsync (sb1 (tbuf d))), (pubsync (sb2 (tbuf d))). exact Hd.
  - eexists; split; [reflexivity|exact Hd].
  - eexists; split; [reflexivity|exact Hd].
  - eexists; split; [reflexivity|exact Hd].
  - eexists; split; [reflexivity|exact Hd].
  - destruct (ForceMessage_returns fuel clk m d) as (E & _).
    rewrite E. eexists; split; [reflexivity|]. cbn [snd tbuf].
    apply settled_overflow; [apply Hd|].
    intros C. exfalso. exact (to_int_type_neq_EOF nl C).
Qed.

Lemma settled_calls (fuel : nat) (ks : list call) : forall d : DStream,
  settled (tbuf d) ->
  exists d', do_calls fuel ks d = Some d' /\ settled (tbuf d').
Proof.
  induction ks as [|k ks IH]; intros d Hd; cbn [do_calls].
  - now exists d.
  - destruct (settled_call fuel k d Hd) as (d1 & E & H1). rewrite E.
    now apply IH.
Qed.

Lemma settled_new (o1 o2 : streambuf) (e1 e2 : bool) :
  settled (tbuf (DStream_new_ts o1 o2 e1 e2)).
Proof. destruct e1, e2; split; reflexivity. Qed.

(** ** The line-start flag (C6) *)

Lemma tee_sputn_newline (s : string) : forall (clk : nat -> ClockReading) (b : CTeeBuf),
  accepts_all (sb1 b) -> accepts_all (sb2 b) -> forceMessage b = false ->
  let b' := snd (tee_sputn clk s b) in
  forceMessage b' = false /\
  accepts_all (sb1 b') /\ accepts_all (sb2 b') /\
  newline b' =
    match s with
    | EmptyString => newline b
    | String _ _ => Ascii.eqb (last (list_ascii_of_string s) nl) nl
    end.
Proof.
  induction s as [|a s IH]; intros clk b H1 H2 Fm; cbn [tee_sputn fst snd].
  - auto.
  - unfold tee_sputc.
    destruct (overflow_accepts (clk O) (to_int_type a) b
                (to_int_type_neq_EOF a) H1 H2)
      as (R & S1 & S2 & N & F & _).
    destruct (overflow (clk O) (to_int_type a) b) as [r b1]; cbn [fst snd] in *.
    rewrite R, (emitted_not_EOF _ b (to_int_type_neq_EOF a)).
    unfold emitted in N. rewrite Fm, to_char_to_int in N.
    assert (A1 : accepts_all (sb1 b1)) by (rewrite S1; now apply accepts_all_push).
    assert (A2 : accepts_all (sb2 b1)) by (rewrite S2; now apply accepts_all_push).
    destruct (IH (fun i => clk (S i)) b1 A1 A2 F) as (F2 & B1 & B2 & N2).
    destruct (tee_sputn (fun i => clk (S i)) s b1) as [n b2]; cbn [fst snd] in *.
    repeat split; auto.
    rewrite N2. destruct s; [exact N|reflexivity].
Qed.

(** C6: the line-start flag is set in a new tee buffer; after every
    call of [overflow] with a character other than [EOF] it tells
    whether the character just offered to both destinations was a line
    break; a call made with the flag clear and no forced message
    pending offers the destinations the character alone and computes
    no timestamp; between the calls made on one thread no forced
    message is ever pending; so after the first timestamp flag is switched on in
    mid-line the rest of the line arrives as written, and it is the
    next line that is stamped. *)
Theorem newline_flag_follows_emitted_character :
  (forall o1 o2 : streambuf, newline (CTeeBuf_new o1 o2) = true) /\
  (forall (clk : ClockReading) (c : Z) (b : CTeeBuf), c <> EOF ->
     let b' := snd (overflow clk c b) in
     exists (ch : ascii) (ok1 ok2 : bool) (t1 t2 : list event),
       trace (sb1 b') = (t1 ++ [Put ch ok1])%list /\
       trace (sb2 b') = (t2 ++ [Put ch ok2])%list /\
       newline b' = Ascii.eqb ch nl) /\
  (forall (clk : ClockReading) (c : Z) (b : CTeeBuf), c <> EOF ->
     newline b = false -> forceMessage b = false ->
     let b' := snd (overflow clk c b) in
     sb1 b' = snd (sputc (to_char_type c) (sb1 b)) /\
     sb2 b' = snd (sputc (to_char_type c) (sb2 b)) /\
     timeStamp b' = timeStamp b /\ stamps b' = stamps b) /\
  (forall (fuel : nat) (ks : list call) (o1 o2 : streambuf) (e1 e2 : bool),
     exists d,
       do_calls fuel ks (DStream_new_ts o1 o2 e1 e2) = Some d /\
       forceMessage (tbuf d) = false) /\
  (forall (clk clk' : nat -> ClockReading) (s s' : string) (b : CTeeBuf),
     accepts_all (sb1 b) -> accepts_all (sb2 b) ->
     newline b = false -> forceMessage b = false ->
     one_line s = true -> one_line s' = true -> s' <> "" ->
     let b0 := set_timeStampEnabledStream1 true b in
     let b1 := snd (tee_sputn clk s b0) in
     let b2 := snd (tee_sputn clk' s' b1) in
     delivered (sb1 b) (sb1 b1) = s /\ delivered (sb2 b) (sb2 b1) = s /\
     (newline b1 = true ->
      delivered (sb1 b1) (sb1 b2) =
        field 32 true (fst (GetTimeStamp (clk' O) b1)) ++ s')).
Proof.
  split; [reflexivity|]. split; [|split; [|split]].
  - intros clk c b Hc b'.
    destruct (overflow_shape clk c b Hc) as (p1 & p2 & S1 & S2 & _).
    destruct (overflow_control clk c b Hc) as (N & _).
    fold b' in S1, S2, N.
    exists (to_char_type (emitted c b)).
    eexists _, _, (trace p1), (trace p2).
    rewrite S1, S2, !sputc_trace. repeat split. exact N.
  - intros clk c b Hc Nl Fm b'.
    destruct (overflow_shape clk c b Hc) as (p1 & p2 & S1 & S2 & _ & _ & _ & P).
    destruct (overflow_control clk c b Hc) as (_ & _ & _ & _ & _ & Ts & St).
    fold b' in S1, S2, Ts, St.
    assert (L : at_line_start b = false) by (unfold at_line_start; now rewrite Fm, Nl).
    destruct (P L) as (-> & ->).
    unfold stamp_due in Ts, St. rewrite L in Ts, St.
    unfold emitted in S1, S2. rewrite Fm in S1, S2. auto.
  - intros fuel ks o1 o2 e1 e2.
    destruct (settled_calls fuel ks _ (settled_new o1 o2 e1 e2)) as (d & E & F & _).
    now exists d.
  - intros clk clk' s s' b H1 H2 Nl Fm Hs Hs' Hne b0 b1 b2.
    destruct (tee_sputn_midline s clk b0 H1 H2 Fm Nl Hs) as (P1 & P2).
    destruct (tee_sputn_newline s clk b0 H1 H2 Fm) as (F1 & A1 & A2 & _).
    destruct (tee_sputn_accepts s clk b0 H1 H2) as (_ & E1 & _).
    fold b1 in P1, P2, F1, A1, A2, E1.
    change (sb1 b0) with (sb1 b) in P1. change (sb2 b0) with (sb2 b) in P2.
    split; [now rewrite P1, delivered_push|].
    split; [now rewrite P2, delivered_push|].
    intros N1.
    destruct (tee_sputn_line s' clk' b1 A1 A2 F1 N1 Hs' Hne) as (Q1 & _).
    fold b2 in Q1. rewrite E1 in Q1. cbn [timeStampEnabledStream1 b0
      set_timeStampEnabledStream1] in Q1.
    now rewrite Q1, delivered_push.
Qed.

(** A timestamp flag switched on after ["ab"]: the line goes on
    undecorated, the next one is stamped. *)
Lemma newline_flag_follows_emitted_character_midline :
  let b := snd (tee_sputn (fun _ => clk0) "ab" (CTeeBuf_new stringbuf stringbuf)) in
  let b0 := set_timeStampEnabledStream1 true b in
  let b1 := snd (tee_sputn (fun _ => clk0) ("c" ++ String nl "") b0) in
  let b2 := snd (tee_sputn (fun _ => clk0) "d" b1) in
  newline b = false /\
  delivered (sb1 b) (sb1 b1) = "c" ++ String nl "" /\
  delivered (sb1 b1) (sb1 b2) = "[2019-3-7|9:5:0|0.000002]       d".
Proof.
  intros b b0 b1 b2. split; [reflexivity|].
  destruct newline_flag_follows_emitted_character as (_ & _ & _ & _ & H).
  destruct (H (fun _ => clk0) (fun _ => clk0) ("c" ++ String nl "") "d" b)
    as (D1 & _ & D2); try reflexivity.
  - intros h c; reflexivity.
  - intros h c; reflexivity.
  - discriminate.
  - split; [exact D1|exact (D2 eq_refl)].
Defined.

(** ** The retained timestamp (C7) *)

(** C7: after any sequence of calls on a newly constructed tee stream,
    [GetLastTimeStamp] returns the value of the latest call of
    [GetTimeStamp], and the empty string when there was none;
    [GetTimeStamp] is called by [overflow] exactly for a character
    other than [EOF] at a line start with a timestamp flag on. *)
Theorem GetLastTimeStamp_is_latest :
  (forall (fuel : nat) (ks : list call) (o1 o2 : streambuf) (e1 e2 : bool),
     exists d,
       do_calls fuel ks (DStream_new_ts o1 o2 e1 e2) = Some d /\
       GetLastTimeStamp d = last (stamps (tbuf d)) "" /\
       (stamps (tbuf d) = [] -> GetLastTimeStamp d = "")) /\
  (forall (o1 o2 : streambuf) (e1 e2 : bool),
     stamps (tbuf (DStream_new_ts o1 o2 e1 e2)) = [] /\
     DStream_new o1 o2 = DStream_new_ts o1 o2 false false) /\
  (forall (clk : ClockReading) (c : Z) (b : CTeeBuf),
     stamps (snd (overflow clk c b)) =
       if negb (c =? EOF) && stamp_due b
       then (stamps b ++ [fst (GetTimeStamp clk b)])%list
       else stamps b).
Proof.
  split; [|split].
  - intros fuel ks o1 o2 e1 e2.
    destruct (settled_calls fuel ks _ (settled_new o1 o2 e1 e2)) as (d & E & _ & T).
    exists d. split; [exact E|]. unfold GetLastTimeStamp.
    split; [exact T|]. intros N. now rewrite T, N.
  - intros o1 o2 e1 e2. destruct e1, e2; split; reflexivity.
  - intros clk c b. destruct (Z.eqb_spec c EOF) as [->|Hc]; cbn [negb andb].
    + unfold overflow. now rewrite Z.eqb_refl.
    + now destruct (overflow_control clk c b Hc) as (_ & _ & _ & _ & _ & _ & St).
Qed.

(** ** The elapsed time is a finite binary64 value *)

Lemma digits2_size (p : positive) : digits2_pos p = Pos.size p.
Proof. induction p; simpl; congruence. Qed.

Lemma Zdigits2_nonneg (m : Z) : 0 <= Zdigits2 m.
Proof. destruct m; simpl; lia. Qed.

Lemma Zdigits2_le (m k : Z) : 0 <= m -> 0 <= k -> m < 2 ^ k -> Zdigits2 m <= k.
Proof.
  intros Hm Hk Hlt. destruct m as [|p|p]; [simpl; lia| |lia].
  cbn [Zdigits2]. rewrite digits2_size.
  assert (L : Z.log2 (Zpos p) < k) by (apply Z.log2_lt_pow2; lia).
  assert (E : Zpos (Pos.size p) = Z.succ (Z.log2 (Zpos p))).
  { destruct p; simpl; lia. }
  lia.
Qed.

Lemma Zdigits2_gt (m : Z) : 0 <= m -> m < 2 ^ Zdigits2 m.
Proof.
  intros Hm. destruct m as [|p|p]; [simpl; lia| |lia].
  cbn [Zdigits2]. rewrite digits2_size.
  assert (E : Zpos (Pos.size p) = Z.succ (Z.log2 (Zpos p))).
  { destruct p; simpl; lia. }
  rewrite E. apply Z.log2_spec. lia.
Qed.

Lemma shr_1_m (mrs : shr_record) :
  0 <= shr_m mrs -> shr_m (shr_1 mrs) = shr_m mrs / 2.
Proof.
  destruct mrs as [m r s]; cbn [shr_m]. intros Hm.
  destruct m as [|[p|p|]|p]; cbn [shr_1 shr_m]; try lia; try reflexivity.
  - apply Z.div_unique with 1; lia.
  - apply Z.div_unique with 0; lia.
Qed.

Lemma pow2_xO (p : positive) : 2 ^ Zpos p~0 = 2 ^ Zpos p * 2 ^ Zpos p.
Proof. rewrite <- Z.pow_add_r by lia. f_equal. lia. Qed.

Lemma pow2_xI (p : positive) : 2 ^ Zpos p~1 = 2 * (2 ^ Zpos p * 2 ^ Zpos p).
Proof.
  rewrite <- Z.pow_add_r, <- Z.pow_succ_r by lia. f_equal. lia.
Qed.

Lemma iter_shr (p : positive) : forall mrs : shr_record,
  0 <= shr_m mrs ->
  shr_m (iter_pos shr_1 p mrs) = shr_m mrs / 2 ^ Zpos p.
Proof.
  induction p as [p IH|p IH|]; intros mrs Hm; cbn [iter_pos].
  - assert (P : 0 < 2 ^ Zpos p) by (apply Z.pow_pos_nonneg; lia).
    assert (H1 : 0 <= shr_m (shr_1 mrs)).
    { rewrite shr_1_m by assumption. apply Z.div_pos; lia. }
    assert (H2 : 0 <= shr_m (iter_pos shr_1 p (shr_1 mrs))).
    { rewrite IH by assumption. apply Z.div_pos; lia. }
    rewrite IH, IH, shr_1_m by assumption.
    rewrite !Z.div_div by lia. now rewrite pow2_xI.
  - assert (P : 0 < 2 ^ Zpos p) by (apply Z.pow_pos_nonneg; lia).
    assert (H2 : 0 <= shr_m (iter_pos shr_1 p mrs)).
    { rewrite IH by assumption. apply Z.div_pos; lia. }
    rewrite IH, IH by assumption.
    rewrite !Z.div_div by lia. now rewrite pow2_xO.
  - now apply shr_1_m.
Qed.

Lemma below_digits (D m e : Z) : below D m e -> Zdigits2 m + e <= Z.max e D.
Proof.
  intros [H0 H1]. pose proof (Zdigits2_le m (Z.max 0 (D - e)) H0 ltac:(lia) H1). lia.
Qed.

Lemma shr_fexp_bound (D m e : Z) (l : location) :
  below D m e ->
  let '(mrs, e') := shr_fexp prec emax m e l in
  below D (shr_m mrs) e' /\ e <= e' /\
  e' <= Z.max e (Z.max (Z.max e D - 53) (-1074)).
Proof.
  intros B. pose proof (below_digits D m e B) as Dg. destruct B as [H0 H1].
  unfold shr_fexp, shr, fexp, emin, prec, emax.
  assert (Sm : shr_m (shr_record_of_loc m l) = m) by (destruct l as [|[| |]]; reflexivity).
  set (n := Z.max (Zdigits2 m + e - 53) (3 - 1024 - 53) - e).
  assert (Hn : n <= Z.max (Z.max e D - 53) (-1074) - e) by lia.
  destruct n as [|p|p] eqn:En.
  - rewrite Sm. repeat split; try lia; try assumption.
  - rewrite iter_shr by (rewrite Sm; lia). rewrite Sm.
    assert (P : 0 < 2 ^ Zpos p) by (apply Z.pow_pos_nonneg; lia).
    repeat split; try lia.
    + apply Z.div_pos; lia.
    + destruct (Z.le_gt_cases (Zpos p) (D - e)) as [L|G].
      * apply Z.div_lt_upper_bound; [lia|].
        rewrite <- Z.pow_add_r by lia.
        eapply Z.lt_le_trans; [exact H1|]. apply Z.pow_le_mono_r; lia.
      * replace (Z.max 0 (D - (e + Zpos p))) with 0 by lia.
        rewrite Z.div_small; [simpl; lia|]. split; [lia|].
        eapply Z.lt_le_trans; [exact H1|]. apply Z.pow_le_mono_r; lia.
  - rewrite Sm. repeat split; try lia; try assumption.
Qed.

Lemma round_bound (m : Z) (l : location) :
  m <= round_nearest_even m l <= m + 1.
Proof.
  unfold round_nearest_even. destruct l as [|[| |]]; try lia.
  destruct (Z.even m); lia.
Qed.

Lemma below_succ (D m e : Z) : below D m e -> below (Z.max D e + 1) (m + 1) e.
Proof.
  intros [H0 H1]. split; [lia|].
  replace (Z.max 0 (Z.max D e + 1 - e)) with (Z.succ (Z.max 0 (D - e))) by lia.
  rewrite Z.pow_succ_r by lia. lia.
Qed.

Lemma binary_round_aux_within (D E : Z) (s : bool) (m e : Z) (l : location) :
  below D m e -> e <= E -> D <= E -> -1074 <= E <= 900 ->
  within (Z.max (Z.max D e) (-1074) + 1) E (binary_round_aux prec emax s m e l).
Proof.
  intros B He HD HE. unfold binary_round_aux.
  pose proof (shr_fexp_bound D m e l B) as S1.
  destruct (shr_fexp prec emax m e l) as [mrs1 e1].
  destruct S1 as (B1 & L1 & U1).
  set (mr := round_nearest_even (shr_m mrs1) (loc_of_shr_record mrs1)).
  pose proof (round_bound (shr_m mrs1) (loc_of_shr_record mrs1)) as R. fold mr in R.
  assert (B2 : below (Z.max D e1 + 1) mr e1).
  { pose proof (below_succ D _ e1 B1) as [_ X]. destruct B1 as [Y _]. split; lia. }
  pose proof (shr_fexp_bound _ mr e1 loc_Exact B2) as S2.
  destruct (shr_fexp prec emax mr e1 loc_Exact) as [mrs2 e2].
  destruct S2 as (B3 & L2 & U2).
  destruct (shr_m mrs2) as [|p|p] eqn:Em; cbn [within].
  - exact I.
  - replace (e2 <=? emax - prec) with true by (symmetry; apply Z.leb_le; unfold emax, prec; lia).
    cbn [within]. split; [|lia].
    destruct B3 as [X Y]. split; [lia|].
    eapply Z.lt_le_trans; [exact Y|]. apply Z.pow_le_mono_r; lia.
  - destruct B3 as [X _]. lia.
Qed.

Lemma iter_xO (d : positive) (m : positive) :
  Zpos (Pos.iter xO m d) = Zpos m * 2 ^ Zpos d.
Proof.
  induction d as [|d IH] using Pos.peano_ind.
  - simpl. lia.
  - rewrite Pos.iter_succ, Pos2Z.inj_xO, IH, Pos2Z.inj_succ, Z.pow_succ_r by lia. lia.
Qed.

Lemma shl_align_below (D : Z) (m : positive) (e e' : Z) :
  below D (Zpos m) e ->
  let '(mz, ez) := shl_align m e e' in
  below (Z.max D e) (Zpos mz) ez /\ ez <= e.
Proof.
  intros [H0 H1]. unfold shl_align.
  destruct (e' - e) as [|d|d] eqn:Ed.
  - split; [|lia]. split; [lia|].
    eapply Z.lt_le_trans; [exact H1|]. apply Z.pow_le_mono_r; lia.
  - split; [|lia]. split; [lia|].
    eapply Z.lt_le_trans; [exact H1|]. apply Z.pow_le_mono_r; lia.
  - split; [|lia]. rewrite iter_xO. split; [lia|].
    assert (P : 0 < 2 ^ Zpos d) by (apply Z.pow_pos_nonneg; lia).
    replace (Z.max 0 (Z.max D e - e')) with (Z.max 0 (D - e) + Zpos d) by lia.
    rewrite Z.pow_add_r by lia. nia.
Qed.

Lemma binary_round_within (D E : Z) (s : bool) (m : positive) (e : Z) :
  below D (Zpos m) e -> e <= E -> D <= E -> -1074 <= E <= 900 ->
  within (Z.max (Z.max D e) (-1074) + 1) E (binary_round prec emax s m e).
Proof.
  intros B He HD HE. unfold binary_round.
  pose proof (shl_align_below D m e
                (fexp prec emax (Zpos (digits2_pos m) + e)) B) as A.
  destruct (shl_align m e (fexp prec emax (Zpos (digits2_pos m) + e))) as [mz ez].
  destruct A as (B1 & L1).
  pose proof (binary_round_aux_within _ E s (Zpos mz) ez loc_Exact B1) as W.
  replace (Z.max (Z.max (Z.max D e) ez) (-1074)) with (Z.max (Z.max D e) (-1074)) in W by lia.
  apply W; lia.
Qed.

Lemma Zpos_below (p : positive) (D : Z) : 0 <= D -> Zpos p < 2 ^ D -> below D (Zpos p) 0.
Proof.
  intros HD H. split; [lia|]. now replace (Z.max 0 (D - 0)) with D by lia.
Qed.

Lemma double_of_Z_within (z : Z) :
  - 2 ^ 64 < z < 2 ^ 64 -> within 65 64 (double_of_Z z).
Proof.
  intros Hz. unfold double_of_Z, binary_normalize.
  destruct z as [|p|p]; [exact I| |].
  - apply (binary_round_within 64 64 false p 0); [apply Zpos_below|..]; lia.
  - apply (binary_round_within 64 64 true p 0); [apply Zpos_below|..]; lia.
Qed.

Lemma SFdiv_within (D1 : Z) (s1 s2 : bool) (m1 m2 : positive) (e1 e2 : Z) :
  below D1 (Zpos m1) e1 -> e1 <= 400 -> D1 <= 400 -> -400 <= e2 ->
  finite (SFdiv prec emax (S754_finite s1 m1 e1) (S754_finite s2 m2 e2)) = true.
Proof.
  intros B1 He1 HD1 He2. cbn [SFdiv]. unfold SFdiv_core_binary.
  set (d1 := Zdigits2 (Zpos m1)). set (d2 := Zdigits2 (Zpos m2)).
  set (e' := Z.min (fexp prec emax (d1 + e1 - (d2 + e2))) (e1 - e2)).
  set (sh := e1 - e2 - e').
  assert (Hsh : 0 <= sh) by (unfold sh, e'; lia).
  set (m' := match sh with
             | 0 => Zpos m1
             | Zpos _ => Z.shiftl (Zpos m1) sh
             | Zneg _ => 0
             end).
  assert (Hm' : m' = Zpos m1 * 2 ^ sh).
  { unfold m'. destruct sh as [|p|p] eqn:Es; [simpl; lia| |lia].
    rewrite Z.shiftl_mul_pow2; lia. }
  pose proof (Z_div_mod m' (Zpos m2) ltac:(lia)) as DM.
  destruct (Z.div_eucl m' (Zpos m2)) as [q r].
  destruct DM as (Eq & Hr).
  assert (P : 0 < 2 ^ sh) by (apply Z.pow_pos_nonneg; lia).
  assert (Hq0 : 0 <= q) by nia.
  assert (Hq1 : q <= m') by nia.
  assert (Bq : below (Z.max D1 e1 - e2) q e').
  { split; [exact Hq0|]. destruct B1 as [_ X].
    eapply Z.le_lt_trans; [exact Hq1|]. rewrite Hm'.
    replace (Z.max 0 (Z.max D1 e1 - e2 - e')) with (Z.max 0 (D1 - e1) + sh)
      by (unfold sh; lia).
    rewrite Z.pow_add_r by lia. nia. }
  pose proof (binary_round_aux_within _ 900 (xorb s1 s2) q e'
                (new_location (Zpos m2) r) Bq) as W.
  assert (He' : e' <= 900) by (unfold e'; lia).
  specialize (W He' ltac:(lia) ltac:(lia)).
  destruct (binary_round_aux prec emax (xorb s1 s2) q e' (new_location (Zpos m2) r));
    cbn [within finite] in *; tauto.
Qed.

Lemma duration_double_finite (t : Z) :
  - 2 ^ 64 < t < 2 ^ 64 -> finite (duration_double t) = true.
Proof.
  intros Ht. unfold duration_double.
  pose proof (double_of_Z_within t Ht) as W.
  change (double_of_Z ticks_per_second)
    with (S754_finite false 8388608000000000 (-23)).
  destruct (double_of_Z t) as [s|s| |s m e]; cbn [within] in W; try tauto.
  destruct W as (B & He). apply (SFdiv_within 65); try lia. exact B.
Qed.

Lemma wrap64_range (z : Z) : - 2 ^ 63 <= wrap64 z < 2 ^ 63.
Proof.
  unfold wrap64. pose proof (Z.mod_pos_bound (z + 2 ^ 63) (2 ^ 64) eq_refl). lia.
Qed.

Lemma elapsed_finite (clk : ClockReading) (b : CTeeBuf) :
  finite (elapsed clk b) = true.
Proof.
  unfold elapsed. apply duration_double_finite.
  pose proof (wrap64_range
    (hr_now clk - (if clockStarted b then start b else hr_first clk))).
  lia.
Qed.

(** ** The text of a timestamp (C3) *)

#[local] Arguments to_string : simpl never.
#[local] Arguments to_string_double : simpl never.

Lemma all_digits_uint (u : Decimal.uint) :
  all_digits (NilEmpty.string_of_uint u) = true.
Proof. induction u; simpl; auto. Qed.

Lemma unorm_to_uint (p : positive) :
  Decimal.unorm (Pos.to_uint p) = Pos.to_uint p.
Proof.
  rewrite <- DecimalPos.Unsigned.to_of, DecimalPos.Unsigned.of_to.
  reflexivity.
Qed.

Lemma to_uint_no_leading_zero (p : positive) (u : Decimal.uint) :
  Pos.to_uint p <> Decimal.D0 u.
Proof.
  intros E. pose proof (unorm_to_uint p) as N. rewrite E in N.
  unfold Decimal.unorm in N. cbn [Decimal.nzhead] in N.
  destruct (Decimal.nzhead u) eqn:Hu;
    try (eapply DecimalFacts.nzhead_nonzero; rewrite Hu; exact N).
  injection N as <-.
  exact (DecimalPos.Unsigned.to_uint_nonzero p E).
Qed.

Lemma to_string_numeral (v : Z) : 0 <= v -> numeral_of v (to_string v).
Proof.
  intros Hv. unfold numeral_of, to_string. split.
  - destruct v as [|p|p]; [| |lia].
    + split; [discriminate|]. split; [reflexivity|now left].
    + cbn [Z.to_int NilEmpty.string_of_int].
      pose proof (DecimalPos.Unsigned.to_uint_nonnil p) as Nn.
      pose proof (to_uint_no_leading_zero p) as Nz.
      split; [|split; [apply all_digits_uint|right]].
      * destruct (Pos.to_uint p); simpl; congruence.
      * intros s' E. destruct (Pos.to_uint p) as [|u|u|u|u|u|u|u|u|u|u];
          simpl in E; try discriminate.
        exact (Nz u eq_refl).
  - rewrite NilEmpty.isi. cbn [option_map]. now rewrite DecimalZ.of_to.
Qed.

Lemma all_from_spec (P : Z -> bool) (n : nat) : forall lo v : Z,
  all_from P n lo = true -> lo <= v < lo + Z.of_nat n -> P v = true.
Proof.
  induction n as [|n IH]; intros lo v H Hv; [lia|].
  cbn [all_from] in H. apply andb_prop in H as [H0 H1].
  destruct (Z.eq_dec v lo) as [->|Hne]; [exact H0|].
  apply (IH (lo + 1)); [exact H1|lia].
Qed.

Lemma to_string_four_digits (v : Z) :
  1000 <= v <= 9999 -> String.length (to_string v) = 4%nat.
Proof.
  intros Hv. apply Nat.eqb_eq.
  apply (all_from_spec (fun v => Nat.eqb (String.length (to_string v)) 4)
           (Z.to_nat 9000) 1000); [vm_compute; reflexivity|lia].
Qed.

Lemma digit_char_is_digit (d : Z) : is_digit (digit_char d) = true.
Proof.
  unfold is_digit, digit_char.
  pose proof (Z.mod_pos_bound d 10 eq_refl) as B.
  rewrite N_ascii_embedding by lia.
  apply andb_true_intro; split; apply N.leb_le; lia.
Qed.

Lemma round_half_even_nonneg (num den : Z) :
  0 <= num -> 0 < den -> 0 <= round_half_even num den.
Proof.
  intros Hn Hd. unfold round_half_even.
  pose proof (Z.div_pos num den Hn Hd).
  destruct (2 * (num mod den) ?= den); [destruct (Z.even (num / den))| |]; lia.
Qed.

Lemma millionths_nonneg (m : positive) (e : Z) : 0 <= millionths m e.
Proof.
  unfold millionths. destruct (Z.leb_spec 0 e).
  - pose proof (Z.pow_nonneg 2 e). nia.
  - apply round_half_even_nonneg; [lia|]. apply Z.pow_pos_nonneg; lia.
Qed.

Lemma fixed6_fixed_point (neg : bool) (q : Z) :
  0 <= q -> fixed_point (fixed6 neg q).
Proof.
  intros Hq. unfold fixed6.
  exists (if neg then "-" else ""), (to_string (q / 1000000)), (frac6 (q mod 1000000)).
  split; [reflexivity|]. split; [destruct neg; auto|].
  split; [apply to_string_numeral, Z.div_pos; lia|].
  split; [|reflexivity].
  unfold frac6; cbn [all_digits]. now rewrite !digit_char_is_digit.
Qed.

Lemma to_string_double_fixed_point (x : double) :
  finite x = true -> fixed_point (to_string_double x).
Proof.
  destruct x as [s|s| |s m e]; cbn [finite]; try discriminate; intros _;
    unfold to_string_double; apply fixed6_fixed_point.
  - lia.
  - apply millionths_nonneg.
Qed.

(** C3: for calendar fields of a four-digit year, the string
    [GetTimeStamp] returns is an opening bracket, the
    year in four digits, a dash, the month, a dash, the day, a bar, the
    hour, a colon, the minute, a colon, the second, a bar, the elapsed
    seconds with six decimals, a closing bracket and one space; each
    calendar field is the plain decimal numeral of its value, without
    leading zeros. *)
Theorem GetTimeStamp_format (clk : ClockReading) (b : CTeeBuf) :
  calendar (local_tm clk) ->
  exists year month day hour minute second seconds : string,
    fst (GetTimeStamp clk b) =
      "[" ++ year ++ "-" ++ month ++ "-" ++ day ++ "|" ++
      hour ++ ":" ++ minute ++ ":" ++ second ++ "|" ++ seconds ++ "] " /\
    numeral_of (tm_year (local_tm clk) + 1900) year /\
    String.length year = 4%nat /\
    numeral_of (tm_mon (local_tm clk) + 1) month /\
    numeral_of (tm_mday (local_tm clk)) day /\
    numeral_of (tm_hour (local_tm clk)) hour /\
    numeral_of (tm_min (local_tm clk)) minute /\
    numeral_of (tm_sec (local_tm clk)) second /\
    fixed_point seconds.
Proof.
  intros (Hy & Hm & Hd & Hh & Hmi & Hs).
  exists (to_string (tm_year (local_tm clk) + 1900)),
         (to_string (tm_mon (local_tm clk) + 1)),
         (to_string (tm_mday (local_tm clk))),
         (to_string (tm_hour (local_tm clk))),
         (to_string (tm_min (local_tm clk))),
         (to_string (tm_sec (local_tm clk))),
         (to_string_double (elapsed clk b)).
  split.
  - unfold GetTimeStamp, elapsed; cbn [fst].
    rewrite !append_assoc. reflexivity.
  - repeat split; try (apply to_string_numeral; lia);
      try (apply to_string_numeral; lia).
    + now apply to_string_four_digits.
    + apply to_string_double_fixed_point, elapsed_finite.
Qed.

Lemma GetTimeStamp_format_sample :
  calendar (local_tm clk1) /\
  exists year month day hour minute second seconds : string,
    "[2019-12-31|23:59:59|123.456794] " =
      "[" ++ year ++ "-" ++ month ++ "-" ++ day ++ "|" ++
      hour ++ ":" ++ minute ++ ":" ++ second ++ "|" ++ seconds ++ "] " /\
    String.length year = 4%nat /\ numeral month /\ fixed_point seconds.
Proof.
  assert (C : calendar (local_tm clk1)) by (cbv; intuition discriminate).
  split; [exact C|].
  destruct (GetTimeStamp_format clk1 (CTeeBuf_new stringbuf stringbuf) C)
    as (y & mo & d & h & mi & s & e & E & _ & Ly & (Nm & _) & _ & _ & _ & _ & Fe).
  exists y, mo, d, h, mi, s, e.
  split; [exact E|]. split; [exact Ly|]. split; [exact Nm|exact Fe].
Defined.

(** * Further properties *)

(** ** A pending forced message replaces the character *)



(** ** Calls only append, and only [flush] flushes *)

Lemma extends_overflow (clk : ClockReading) (c : Z) (b : CTeeBuf) :
  extends (sb1 b) (sb1 (snd (overflow clk c b))) /\
  extends (sb2 b) (sb2 (snd (overflow clk c b))).
Proof.
  destruct (Z.eq_dec c EOF) as [->|Hc].
  - unfold overflow. rewrite Z.eqb_refl. split; apply extends_refl.
  - destruct (overflow_shape clk c b Hc) as (p1 & p2 & S1 & S2 & _ & X1 & X2 & _).
    rewrite S1, S2.
    split; (eapply extends_trans; [eassumption|apply extends_sputc]).
Qed.

Lemma extends_tee_sputn (s : string) : forall (clk : nat -> ClockReading) (b : CTeeBuf),
  extends (sb1 b) (sb1 (snd (tee_sputn clk s b))) /\
  extends (sb2 b) (sb2 (snd (tee_sputn clk s b))).
Proof.
  induction s as [|a s IH]; intros clk b; cbn [tee_sputn snd].
  - split; apply extends_refl.
  - unfold tee_sputc.
    pose proof (extends_overflow (clk O) (to_int_type a) b) as [E1 E2].
    destruct (overflow (clk O) (to_int_type a) b) as [r b1]; cbn [snd] in *.
    destruct (r =? EOF); [now split|].
    specialize (IH (fun i => clk (S i)) b1). destruct IH as [F1 F2].
    destruct (tee_sputn (fun i => clk (S i)) s b1) as [n b2]; cbn [snd] in *.
    split; eapply extends_trans; eassumption.
Qed.

Lemma extends_call (fuel : nat) (k : call) (d d' : DStream) :
  do_call fuel k d = Some d' -> is_flush k = false ->
  extends (sb1 (tbuf d)) (sb1 (tbuf d')) /\
  extends (sb2 (tbuf d)) (sb2 (tbuf d')).
Proof.
  intros E Nf. destruct k as [clk s| | | | | |clk m]; cbn [do_call is_flush] in *;
    try discriminate; try (injection E as <-; split; apply extends_refl).
  - injection E as <-. unfold DStream_insert.
    destruct (ios_failed d); [split; apply extends_refl|].
    pose proof (extends_tee_sputn s clk (tbuf d)) as X.
    now destruct (tee_sputn clk s (tbuf d)).
  - destruct (ForceMessage_returns fuel clk m d) as (R & _).
    rewrite R in E. cbn [option_map snd] in E. injection E as <-. cbn [tbuf].
    apply (extends_overflow clk (to_int_type nl)
             (set_forceMessage true
                (set_forcedMessage (m ++ String nl "") (tbuf d)))).
Qed.

Lemma extends_syncs (sb sb' : streambuf) :
  extends sb sb' -> syncs (trace sb') = syncs (trace sb).
Proof.
  intros (_ & _ & l & T & N). rewrite T. clear T.
  induction (trace sb) as [|[c ok|ok] t IH]; simpl; auto.
Qed.

(** X2: a sequence of calls without [flush] never asks a destination
    to flush, and no call removes or changes what a destination
    already holds: the characters received before are a prefix of
    those received after. *)
Theorem calls_append_and_never_flush (fuel : nat) (ks : list call) :
  forall d d' : DStream,
  do_calls fuel ks d = Some d' ->
  forallb (fun k => negb (is_flush k)) ks = true ->
  syncs (trace (sb1 (tbuf d'))) = syncs (trace (sb1 (tbuf d))) /\
  syncs (trace (sb2 (tbuf d'))) = syncs (trace (sb2 (tbuf d))) /\
  (exists x, received (sb1 (tbuf d')) = received (sb1 (tbuf d)) ++ x) /\
  (exists x, received (sb2 (tbuf d')) = received (sb2 (tbuf d)) ++ x).
Proof.
  intros d d' E Nf.
  assert (X : extends (sb1 (tbuf d)) (sb1 (tbuf d')) /\
              extends (sb2 (tbuf d)) (sb2 (tbuf d'))).
  { revert d E. induction ks as [|k ks IH]; intros d E; cbn [do_calls] in E.
    - injection E as <-. split; apply extends_refl.
    - cbn [forallb] in Nf. apply andb_prop in Nf as [Nk Nf].
      destruct (do_call fuel k d) as [d1|] eqn:E1; [|discriminate].
      destruct (extends_call fuel k d d1 E1) as [A1 A2].
      { now destruct (is_flush k). }
      destruct (IH Nf d1 E) as [B1 B2].
      split; eapply extends_trans; eassumption. }
  destruct X as [X1 X2].
  repeat split; auto using extends_syncs, extends_received.
Qed.

Lemma calls_append_and_never_flush_sample :
  let d := DStream_new_ts stringbuf stringbuf true true in
  let ks := [CInsert (fun _ => clk0) hello; CForceMessage clk1 "alert"] in
  exists d',
    do_calls 0 ks d = Some d' /\
    syncs (trace (sb1 (tbuf d'))) = O /\ syncs (trace (sb2 (tbuf d'))) = O.
Proof.
  intros d ks. destruct (do_calls 0 ks d) as [d'|] eqn:E.
  - exists d'. split; [reflexivity|].
    destruct (calls_append_and_never_flush 0 ks d d' E eq_refl) as (S1 & S2 & _).
    rewrite S1, S2. split; reflexivity.
  - vm_compute in E. discriminate.
Defined.

(** ** What every call preserves *)

Lemma tee_sputn_invariant (P : CTeeBuf -> Prop) :
  (forall clk c b, P b -> P (snd (overflow clk c b))) ->
  forall (s : string) (clk : nat -> ClockReading) (b : CTeeBuf),
  P b -> P (snd (tee_sputn clk s b)).
Proof.
  intros Ho. induction s as [|a s IH]; intros clk b Hb; cbn [tee_sputn snd];
    [exact Hb|].
  unfold tee_sputc. pose proof (Ho (clk O) (to_int_type a) b Hb) as H1.
  destruct (overflow (clk O) (to_int_type a) b) as [r b1]; cbn [snd] in *.
  destruct (r =? EOF); [exact H1|].
  specialize (IH (fun i => clk (S i)) b1 H1).
  now destruct (tee_sputn (fun i => clk (S i)) s b1).
Qed.

(** A property of the tee buffer kept by [overflow], by the writes to
    the destination members, by arming a forced message and by the
    toggles among the calls [allowed] is kept by every allowed call. *)
Lemma call_invariant (P : CTeeBuf -> Prop) (allowed : call -> bool) :
  (forall clk c b, P b -> P (snd (overflow clk c b))) ->
  (forall s1 s2 b, P b -> P (set_sbs s1 s2 b)) ->
  (forall m b, P b -> P (set_forceMessage true (set_forcedMessage m b))) ->
  (forall (v : bool) b, allowed (if v then CEnable1 else CDisable1) = true ->
     P b -> P (set_timeStampEnabledStream1 v b)) ->
  (forall (v : bool) b, allowed (if v then CEnable2 else CDisable2) = true ->
     P b -> P (set_timeStampEnabledStream2 v b)) ->
  forall (fuel : nat) (k : call) (d d' : DStream),
  allowed k = true -> P (tbuf d) -> do_call fuel k d = Some d' -> P (tbuf d').
Proof.
  intros Ho Hs Hf H1 H2 fuel k d d' Ak Hd E.
  destruct k as [clk s| | | | | |clk m]; cbn [do_call] in E.
  - injection E as <-. unfold DStream_insert.
    destruct (ios_failed d); [exact Hd|].
    pose proof (tee_sputn_invariant P Ho s clk (tbuf d) Hd) as X.
    now destruct (tee_sputn clk s (tbuf d)).
  - injection E as <-. unfold DStream_flush.
    destruct (ios_failed d); [exact Hd|]. unfold sync.
    destruct (pubsync (sb1 (tbuf d))), (pubsync (sb2 (tbuf d))). cbn [tbuf].
    now apply Hs.
  - injection E as <-. now apply (H1 true).
  - injection E as <-. now apply (H2 true).
  - injection E as <-. now apply (H1 false).
  - injection E as <-. now apply (H2 false).
  - destruct (ForceMessage_returns fuel clk m d) as (R & _).
    rewrite R in E. cbn [option_map snd] in E. injection E as <-. cbn [tbuf].
    now apply Ho, Hf.
Qed.

Lemma calls_invariant (P : CTeeBuf -> Prop) (allowed : call -> bool) :
  (forall clk c b, P b -> P (snd (overflow clk c b))) ->
  (forall s1 s2 b, P b -> P (set_sbs s1 s2 b)) ->
  (forall m b, P b -> P (set_forceMessage true (set_forcedMessage m b))) ->
  (forall (v : bool) b, allowed (if v then CEnable1 else CDisable1) = true ->
     P b -> P (set_timeStampEnabledStream1 v b)) ->
  (forall (v : bool) b, allowed (if v then CEnable2 else CDisable2) = true ->
     P b -> P (set_timeStampEnabledStream2 v b)) ->
  forall (fuel : nat) (ks : list call) (d d' : DStream),
  forallb allowed ks = true -> P (tbuf d) ->
  do_calls fuel ks d = Some d' -> P (tbuf d').
Proof.
  intros Ho Hs Hf H1 H2 fuel ks.
  induction ks as [|k ks IH]; intros d d' Ak Hd E; cbn [do_calls] in E.
  - now injection E as <-.
  - cbn [forallb] in Ak. apply andb_prop in Ak as [A0 Ak].
    destruct (do_call fuel k d) as [d1|] eqn:E1; [|discriminate].
    apply (IH d1 d' Ak); [|exact E].
    exact (call_invariant P allowed Ho Hs Hf H1 H2 fuel k d d1 A0 Hd E1).
Qed.

Lemma overflow_clock (clk : ClockReading) (c : Z) (b : CTeeBuf) :
  c <> EOF ->
  let b' := snd (overflow clk c b) in
  clockStarted b' = clockStarted b || stamp_due b /\
  start b' =
    (if stamp_due b && negb (clockStarted b) then hr_first clk else start b) /\
  now b' = (if stamp_due b then hr_now clk else now b).
Proof.
  intros Hc.
  unfold overflow, stamp_due, at_line_start.
  apply Z.eqb_neq in Hc; rewrite Hc.
  destruct b as [s1 s2 e1 e2 ts fm fmsg cs st nw nwl stp]; tee_cbn.
  destruct fm, nwl, e1, e2; tee_cbn;
    try rewrite GetTimeStamp_eq; tee_cbn;
    unfold sputc; tee_cbn; destruct cs; repeat split; reflexivity.
Qed.

Lemma overflow_EOF (clk : ClockReading) (b : CTeeBuf) :
  snd (overflow clk EOF b) = b.
Proof. unfold overflow. now rewrite Z.eqb_refl. Qed.

(** ** The clocks are read only for a timestamp *)

Lemma overflow_flags_off (clk : ClockReading) (c : Z) (b : CTeeBuf) :
  timeStampEnabledStream1 b = false -> timeStampEnabledStream2 b = false ->
  let b' := snd (overflow clk c b) in
  timeStampEnabledStream1 b' = false /\ timeStampEnabledStream2 b' = false /\
  clock_state b' = clock_state b.
Proof.
  intros E1 E2. destruct (Z.eq_dec c EOF) as [->|Hc].
  - rewrite overflow_EOF. auto.
  - destruct (overflow_control clk c b Hc) as (_ & _ & _ & F1 & F2 & Ts & St).
    destruct (overflow_clock clk c b Hc) as (Cs & S0 & Nw).
    assert (D : stamp_due b = false).
    { unfold stamp_due. rewrite E1, E2. apply andb_false_r. }
    rewrite D in *. cbn [andb orb] in *. rewrite orb_false_r in Cs.
    unfold clock_state. cbv zeta.
    rewrite F1, F2, Ts, St, Cs, S0, Nw. auto.
Qed.

(** X3: while both timestamp flags are off, no call reads a clock:
    through any sequence of writes, flushes, forced messages and
    disabling toggles the clock members, the retained timestamp and
    the record of computed timestamps stay as they were, and the flags
    stay off. *)
Theorem no_clock_reading_while_disabled
    (fuel : nat) (ks : list call) (d d' : DStream) :
  timeStampEnabledStream1 (tbuf d) = false ->
  timeStampEnabledStream2 (tbuf d) = false ->
  forallb (fun k => negb (is_enable k)) ks = true ->
  do_calls fuel ks d = Some d' ->
  clock_state (tbuf d') = clock_state (tbuf d) /\
  GetLastTimeStamp d' = GetLastTimeStamp d /\
  timeStampEnabledStream1 (tbuf d') = false /\
  timeStampEnabledStream2 (tbuf d') = false.
Proof.
  intros E1 E2 Ak E.
  assert (X : timeStampEnabledStream1 (tbuf d') = false /\
              timeStampEnabledStream2 (tbuf d') = false /\
              clock_state (tbuf d') = clock_state (tbuf d)).
  { apply (calls_invariant
             (fun b => timeStampEnabledStream1 b = false /\
                       timeStampEnabledStream2 b = false /\
                       clock_state b = clock_state (tbuf d))
             (fun k => negb (is_enable k))) with (fuel := fuel) (ks := ks) (d := d);
      auto.
    - intros clk c b (A1 & A2 & A3).
      destruct (overflow_flags_off clk c b A1 A2) as (B1 & B2 & B3).
      repeat split; congruence.
    - intros [|] b A; [discriminate|]. intros (A1 & A2 & A3). auto.
    - intros [|] b A; [discriminate|]. intros (A1 & A2 & A3). auto. }
  destruct X as (F1 & F2 & C). repeat split; auto.
  unfold GetLastTimeStamp. unfold clock_state in C. congruence.
Qed.

Lemma no_clock_reading_while_disabled_sample :
  let d := DStream_new stringbuf stringbuf in
  let ks := [CInsert (fun _ => clk0) hello; CForceMessage clk1 "alert";
             CFlush; CDisable1] in
  exists d',
    do_calls 0 ks d = Some d' /\
    clockStarted (tbuf d') = false /\ GetLastTimeStamp d' = "".
Proof.
  intros d ks. destruct (do_calls 0 ks d) as [d'|] eqn:E.
  - exists d'. split; [reflexivity|].
    destruct (no_clock_reading_while_disabled 0 ks d d' eq_refl eq_refl eq_refl E)
      as (C & G & _).
    split; [|exact G]. now injection C.
  - vm_compute in E. discriminate.
Defined.

(** ** The origin of the elapsed time *)

(** X4: the origin of the elapsed time is the clock reading made at
    the first timestamp computation, and no later call moves it: a
    call of [overflow] that computes a timestamp on a clock not yet
    started stores the reading made for the start; once the clock is
    started it stays started and [start] keeps its value through every
    sequence of calls; and after any calls on a new tee stream the
    clock is started exactly when a timestamp has been computed. *)
Theorem clock_origin_is_first_stamp :
  (forall (clk : ClockReading) (c : Z) (b : CTeeBuf),
     c <> EOF -> clockStarted b = false -> stamp_due b = true ->
     let b' := snd (overflow clk c b) in
     clockStarted b' = true /\ start b' = hr_first clk /\ now b' = hr_now clk) /\
  (forall (fuel : nat) (ks : list call) (d d' : DStream),
     clockStarted (tbuf d) = true -> do_calls fuel ks d = Some d' ->
     clockStarted (tbuf d') = true /\ start (tbuf d') = start (tbuf d)) /\
  (forall (fuel : nat) (ks : list call) (o1 o2 : streambuf) (e1 e2 : bool)
          (d : DStream),
     do_calls fuel ks (DStream_new_ts o1 o2 e1 e2) = Some d ->
     clockStarted (tbuf d) = negb (Nat.eqb (List.length (stamps (tbuf d))) 0)).
Proof.
  split; [|split].
  - intros clk c b Hc Cs Sd b'.
    destruct (overflow_clock clk c b Hc) as (A & B & C). fold b' in A, B, C.
    rewrite Cs, Sd in *. auto.
  - intros fuel ks d d' Cs E.
    apply (calls_invariant
             (fun b => clockStarted b = true /\ start b = start (tbuf d))
             (fun _ => true)) with (fuel := fuel) (ks := ks) (d := d); auto.
    + intros clk c b (A1 & A2). destruct (Z.eq_dec c EOF) as [->|Hc].
      * now rewrite overflow_EOF.
      * destruct (overflow_clock clk c b Hc) as (A & B & _).
        rewrite A, B, A1, andb_false_r. auto.
    + clear. induction ks; auto.
  - intros fuel ks o1 o2 e1 e2 d E.
    apply (calls_invariant
             (fun b => clockStarted b = negb (Nat.eqb (List.length (stamps b)) 0))
             (fun _ => true)) with (fuel := fuel) (ks := ks)
             (d := DStream_new_ts o1 o2 e1 e2); auto.
    + intros clk c b A. destruct (Z.eq_dec c EOF) as [->|Hc].
      * now rewrite overflow_EOF.
      * destruct (overflow_clock clk c b Hc) as (B & _).
        destruct (overflow_control clk c b Hc) as (_ & _ & _ & _ & _ & _ & St).
        rewrite B, St, A. destruct (stamp_due b).
        -- rewrite length_app, orb_true_r. cbn [List.length].
           rewrite Nat.add_1_r. reflexivity.
        -- apply orb_false_r.
    + clear. induction ks; auto.
    + destruct e1, e2; reflexivity.
Qed.

(** ** The timestamp flags *)

(** X5: only the four toggles change the timestamp flags: after any
    sequence of calls each flag has the value given by the last toggle
    for its destination in the sequence, or its earlier value when
    there is none; writes, flushes and forced messages leave both
    flags alone. *)
Theorem flags_follow_last_toggle (fuel : nat) (ks : list call) :
  forall d d' : DStream,
  do_calls fuel ks d = Some d' ->
  timeStampEnabledStream1 (tbuf d') =
    flag1_after ks (timeStampEnabledStream1 (tbuf d)) /\
  timeStampEnabledStream2 (tbuf d') =
    flag2_after ks (timeStampEnabledStream2 (tbuf d)).
Proof.
  induction ks as [|k ks IH]; intros d d' E; cbn [do_calls] in E.
  - injection E as <-. auto.
  - destruct (do_call fuel k d) as [d1|] eqn:E1; [|discriminate].
    destruct (IH d1 d' E) as (A1 & A2). rewrite A1, A2. clear IH E A1 A2.
    assert (K : forall v1 v2,
               timeStampEnabledStream1 (tbuf d) = v1 ->
               timeStampEnabledStream2 (tbuf d) = v2 ->
               is_enable k = false ->
               k <> CDisable1 -> k <> CDisable2 ->
               timeStampEnabledStream1 (tbuf d1) = v1 /\
               timeStampEnabledStream2 (tbuf d1) = v2).
    { intros v1 v2 V1 V2 Ne N1 N2.
      apply (call_invariant
               (fun b => timeStampEnabledStream1 b = v1 /\
                         timeStampEnabledStream2 b = v2)
               (fun k' => match k' with
                          | CEnable1 | CEnable2 | CDisable1 | CDisable2 => false
                          | _ => true
                          end)) with (fuel := fuel) (k := k) (d := d); auto.
      - intros clk c b (B1 & B2). destruct (Z.eq_dec c EOF) as [->|Hc].
        + now rewrite overflow_EOF.
        + destruct (overflow_control clk c b Hc) as (_ & _ & _ & F1 & F2 & _).
          split; congruence.
      - intros [|] b; discriminate.
      - intros [|] b; discriminate.
      - destruct k; try reflexivity; try discriminate; congruence. }
    destruct k as [clk s| | | | | |clk m]; cbn [flag1_after flag2_after];
      try (destruct (K _ _ eq_refl eq_refl eq_refl) as (B1 & B2);
           [discriminate|discriminate|now rewrite B1, B2]);
      cbn [do_call] in E1; injection E1 as <-; split; reflexivity.
Qed.

Lemma flags_follow_last_toggle_sample :
  let ks := [CEnable1; CInsert (fun _ => clk0) hello; CEnable1; CDisable2;
             CForceMessage clk1 "alert"; CDisable1; CFlush] in
  exists d',
    do_calls 0 ks (DStream_new_ts stringbuf stringbuf false true) = Some d' /\
    timeStampEnabledStream1 (tbuf d') = false /\
    timeStampEnabledStream2 (tbuf d') = false.
Proof.
  intros ks.
  destruct (do_calls 0 ks (DStream_new_ts stringbuf stringbuf false true))
    as [d'|] eqn:E.
  - exists d'. split; [reflexivity|].
    exact (flags_follow_last_toggle 0 ks _ d' E).
  - vm_compute in E. discriminate.
Defined.

(** ** One timestamp for every line begun *)

Lemma tee_sputn_stamp_count (s : string) :
  forall (clk : nat -> ClockReading) (b : CTeeBuf),
  accepts_all (sb1 b) -> accepts_all (sb2 b) -> forceMessage b = false ->
  let b' := snd (tee_sputn clk s b) in
  List.length (stamps b') =
    (List.length (stamps b) +
     if timeStampEnabledStream1 b || timeStampEnabledStream2 b
     then line_starts (newline b) s else 0)%nat.
Proof.
  induction s as [|a s IH]; intros clk b H1 H2 Fm; cbn [tee_sputn fst snd line_starts].
  - destruct (_ || _); lia.
  - unfold tee_sputc.
    destruct (overflow_accepts (clk O) (to_int_type a) b
                (to_int_type_neq_EOF a) H1 H2)
      as (R & S1 & S2 & N & F & _ & E1 & E2).
    destruct (overflow_control (clk O) (to_int_type a) b (to_int_type_neq_EOF a))
      as (_ & _ & _ & _ & _ & _ & St).
    destruct (overflow (clk O) (to_int_type a) b) as [r b1]; cbn [fst snd] in *.
    rewrite R, (emitted_not_EOF _ b (to_int_type_neq_EOF a)).
    unfold emitted in N. rewrite Fm, to_char_to_int in N.
    assert (A1 : accepts_all (sb1 b1)) by (rewrite S1; now apply accepts_all_push).
    assert (A2 : accepts_all (sb2 b1)) by (rewrite S2; now apply accepts_all_push).
    specialize (IH (fun i => clk (S i)) b1 A1 A2 F).
    destruct (tee_sputn (fun i => clk (S i)) s b1) as [n b2]; cbn [fst snd] in *.
    rewrite IH, St, E1, E2, N. unfold stamp_due, at_line_start. rewrite Fm.
    cbn [orb].
    destruct (newline b), (timeStampEnabledStream1 b || timeStampEnabledStream2 b);
      cbn [andb]; rewrite ?length_app; cbn [List.length]; lia.
Qed.

(** X6: when neither destination refuses a character, a timestamp
    flag is on and no forced message is pending, writing a string
    through the tee stream computes exactly one timestamp for every
    character that begins a line: the first one if the tee is at a
    line start, and every one that follows a line break. *)
Theorem one_stamp_per_line_begun
    (clk : nat -> ClockReading) (s : string) (d : DStream) :
  accepts_all (sb1 (tbuf d)) -> accepts_all (sb2 (tbuf d)) ->
  ios_failed d = false -> forceMessage (tbuf d) = false ->
  timeStampEnabledStream1 (tbuf d) || timeStampEnabledStream2 (tbuf d) = true ->
  let d' := DStream_insert clk s d in
  List.length (stamps (tbuf d')) =
    (List.length (stamps (tbuf d)) + line_starts (newline (tbuf d)) s)%nat.
Proof.
  intros H1 H2 Fd Fm En. unfold DStream_insert. rewrite Fd.
  pose proof (tee_sputn_stamp_count s clk (tbuf d) H1 H2 Fm) as X.
  destruct (tee_sputn clk s (tbuf d)) as [n b']; cbn [snd tbuf] in *.
  now rewrite X, En.
Qed.

Lemma one_stamp_per_line_begun_sample :
  let d := DStream_new_ts stringbuf stringbuf false true in
  let s := hello ++ hi ++ "x" in
  List.length (stamps (tbuf (DStream_insert (fun _ => clk0) s d))) = 3%nat.
Proof.
  intros d s.
  exact (one_stamp_per_line_begun (fun _ => clk0) s d
           accepts_all_stringbuf accepts_all_stringbuf eq_refl eq_refl eq_refl).
Defined.

(** ** The accessor and the text on the destinations *)

Lemma tee_sputn_midline_stamp (s : string) :
  forall (clk : nat -> ClockReading) (b : CTeeBuf),
  forceMessage b = false -> newline b = false -> one_line s = true ->
  timeStamp (snd (tee_sputn clk s b)) = timeStamp b.
Proof.
  induction s as [|a s IH]; intros clk b Fm Nl Hs; cbn [tee_sputn snd]; [reflexivity|].
  unfold tee_sputc.
  destruct (overflow_control (clk O) (to_int_type a) b (to_int_type_neq_EOF a))
    as (N & F & _ & _ & _ & Ts & _).
  destruct (overflow (clk O) (to_int_type a) b) as [r b1]; cbn [snd] in *.
  assert (D : stamp_due b = false).
  { unfold stamp_due, at_line_start. now rewrite Fm, Nl. }
  rewrite D in Ts.
  destruct (r =? EOF); [exact Ts|].
  destruct s as [|a' s'].
  - cbn [tee_sputn snd]. exact Ts.
  - cbn [one_line] in Hs. apply andb_prop in Hs as [Ha Hs].
    unfold emitted in N. rewrite Fm, to_char_to_int in N.
    assert (N1 : newline b1 = false) by (rewrite N; now destruct (Ascii.eqb a nl)).
    specialize (IH (fun i => clk (S i)) b1 F N1 Hs).
    destruct (tee_sputn (fun i => clk (S i)) (String a' s') b1) as [n b2];
      cbn [snd] in *.
    congruence.
Qed.

(** X7: when neither destination refuses a character, after a line
    was written from a line start with a timestamp flag on (no forced
    message pending), [GetLastTimeStamp] returns the very timestamp
    that precedes this line on every destination whose flag is on. *)
Theorem accessor_matches_delivered_stamp
    (clk : nat -> ClockReading) (s : string) (d : DStream) :
  accepts_all (sb1 (tbuf d)) -> accepts_all (sb2 (tbuf d)) ->
  ios_failed d = false ->
  forceMessage (tbuf d) = false -> newline (tbuf d) = true ->
  one_line s = true -> s <> "" ->
  timeStampEnabledStream1 (tbuf d) || timeStampEnabledStream2 (tbuf d) = true ->
  let d' := DStream_insert clk s d in
  let ts := GetLastTimeStamp d' in
  let stamp := ts ++ spaces (32 - String.length ts) in
  delivered (sb1 (tbuf d)) (sb1 (tbuf d')) =
    (if timeStampEnabledStream1 (tbuf d) then stamp else "") ++ s /\
  delivered (sb2 (tbuf d)) (sb2 (tbuf d')) =
    (if timeStampEnabledStream2 (tbuf d) then stamp else "") ++ s.
Proof.
  intros H1 H2 Fd Fm Nl Hs Hne En. unfold DStream_insert, GetLastTimeStamp.
  rewrite Fd.
  destruct (tee_sputn_line s clk (tbuf d) H1 H2 Fm Nl Hs Hne) as (P1 & P2).
  assert (T : timeStamp (snd (tee_sputn clk s (tbuf d))) =
              fst (GetTimeStamp (clk O) (tbuf d))).
  { destruct s as [|a s]; [congruence|]. cbn [tee_sputn snd]. unfold tee_sputc.
    destruct (overflow_control (clk O) (to_int_type a) (tbuf d)
                (to_int_type_neq_EOF a)) as (N & F & _ & _ & _ & Ts & _).
    destruct (overflow (clk O) (to_int_type a) (tbuf d)) as [r b1]; cbn [snd] in *.
    assert (D : stamp_due (tbuf d) = true).
    { unfold stamp_due, at_line_start. now rewrite Fm, Nl, En. }
    rewrite D in Ts.
    destruct (r =? EOF); [exact Ts|].
    destruct s as [|a' s'].
    - cbn [tee_sputn snd]. exact Ts.
    - cbn [one_line] in Hs. apply andb_prop in Hs as [Ha Hs].
      unfold emitted in N. rewrite Fm, to_char_to_int in N.
      assert (N1 : newline b1 = false) by (rewrite N; now destruct (Ascii.eqb a nl)).
      pose proof (tee_sputn_midline_stamp (String a' s') (fun i => clk (S i)) b1
                    F N1 Hs) as M.
      destruct (tee_sputn (fun i => clk (S i)) (String a' s') b1) as [n b2];
        cbn [snd] in *.
      congruence. }
  destruct (tee_sputn clk s (tbuf d)) as [n b']; cbn [fst snd tbuf] in *.
  rewrite P1, P2, !delivered_push, T. split; reflexivity.
Qed.

Lemma accessor_matches_delivered_stamp_sample :
  let d := DStream_new_ts stringbuf stringbuf true false in
  let d' := DStream_insert (fun _ => clk0) hi d in
  GetLastTimeStamp d' = "[2019-3-7|9:5:0|0.000002] " /\
  delivered (sb1 (tbuf d)) (sb1 (tbuf d')) =
    GetLastTimeStamp d' ++ spaces (32 - String.length (GetLastTimeStamp d')) ++ hi.
Proof.
  intros d d'. split; [reflexivity|].
  destruct (accessor_matches_delivered_stamp (fun _ => clk0) hi d
              accepts_all_stringbuf accepts_all_stringbuf
              eq_refl eq_refl eq_refl eq_refl) as (D1 & _).
  - discriminate.
  - reflexivity.
  - fold d' in D1. rewrite D1. reflexivity.
Defined.

(** ** Writes without decoration, whatever the destinations do *)









(** ** Reading a timestamp back *)

Lemma GetTimeStamp_text (clk : ClockReading) (b : CTeeBuf) :
  fst (GetTimeStamp clk b) =
    "[" ++ to_string (tm_year (local_tm clk) + 1900) ++
    "-" ++ to_string (tm_mon (local_tm clk) + 1) ++
    "-" ++ to_string (tm_mday (local_tm clk)) ++
    "|" ++ to_string (tm_hour (local_tm clk)) ++
    ":" ++ to_string (tm_min (local_tm clk)) ++
    ":" ++ to_string (tm_sec (local_tm clk)) ++
    "|" ++ to_string_double (elapsed clk b) ++ "] ".
Proof.
  unfold GetTimeStamp, elapsed; cbn [fst]. rewrite !append_assoc. reflexivity.
Qed.

Lemma digits_split (a : string) : forall (a' r r' : string) (x x' : ascii),
  all_digits a = true -> all_digits a' = true ->
  is_digit x = false -> is_digit x' = false ->
  a ++ String x r = a' ++ String x' r' ->
  a = a' /\ x = x' /\ r = r'.
Proof.
  induction a as [|c a IH]; intros [|c' a'] r r' x x' Da Da' Hx Hx' E;
    cbn [String.append all_digits] in *.
  - injection E as -> ->. auto.
  - injection E as -> _. apply andb_prop in Da' as [Dc _]. congruence.
  - injection E as -> _. apply andb_prop in Da as [Dc _]. congruence.
  - injection E as -> E. apply andb_prop in Da as [_ Da].
    apply andb_prop in Da' as [_ Da'].
    destruct (IH a' r r' x x' Da Da' Hx Hx' E) as (-> & -> & ->). auto.
Qed.

Lemma append_cancel_r (c : string) : forall a b : string,
  a ++ c = b ++ c -> a = b.
Proof.
  intros a. induction a as [|x a IH]; intros [|y b] E; cbn [String.append] in E.
  - reflexivity.
  - apply (f_equal String.length) in E. cbn [String.length] in E.
    rewrite length_append in E. lia.
  - apply (f_equal String.length) in E. cbn [String.length] in E.
    rewrite length_append in E. lia.
  - injection E as -> E. f_equal. now apply IH.
Qed.

Lemma numeral_of_unique (v v' : Z) (s : string) :
  numeral_of v s -> numeral_of v' s -> v = v'.
Proof. intros (_ & P) (_ & P'). congruence. Qed.

(** X9: the text of a timestamp tells the time it was made from: if
    two calls of [GetTimeStamp], on calendar fields that are not
    negative, return the same string, then they saw the same year,
    month, day, hour, minute and second and printed the same elapsed
    seconds. Without zero padding the fields are still told apart by
    their separators. *)
Theorem timestamp_determines_time
    (clk clk' : ClockReading) (b b' : CTeeBuf) :
  dated (local_tm clk) -> dated (local_tm clk') ->
  fst (GetTimeStamp clk b) = fst (GetTimeStamp clk' b') ->
  local_tm clk = local_tm clk' /\
  to_string_double (elapsed clk b) = to_string_double (elapsed clk' b').
Proof.
  intros (Y & Mo & D & H & Mi & S) (Y' & Mo' & D' & H' & Mi' & S') E.
  rewrite !GetTimeStamp_text in E. cbn [String.append] in E.
  injection E as E.
  pose proof (fun v (Hv : 0 <= v) => proj1 (to_string_numeral v Hv)) as Nu.
  pose proof (fun v (Hv : 0 <= v) => proj1 (proj2 (Nu v Hv))) as Dg.
  apply digits_split in E as (Ey & _ & E); auto.
  apply digits_split in E as (Em & _ & E); auto.
  apply digits_split in E as (Ed & _ & E); auto.
  apply digits_split in E as (Eh & _ & E); auto.
  apply digits_split in E as (Emi & _ & E); auto.
  apply digits_split in E as (Es & _ & E); auto.
  apply append_cancel_r in E.
  split; [|exact E].
  pose proof (to_string_numeral _ Y) as A1. rewrite Ey in A1.
  pose proof (to_string_numeral _ Mo) as A2. rewrite Em in A2.
  pose proof (to_string_numeral _ D) as A3. rewrite Ed in A3.
  pose proof (to_string_numeral _ H) as A4. rewrite Eh in A4.
  pose proof (to_string_numeral _ Mi) as A5. rewrite Emi in A5.
  pose proof (to_string_numeral _ S) as A6. rewrite Es in A6.
  apply (numeral_of_unique _ _ _ (to_string_numeral _ Y')) in A1.
  apply (numeral_of_unique _ _ _ (to_string_numeral _ Mo')) in A2.
  apply (numeral_of_unique _ _ _ (to_string_numeral _ D')) in A3.
  apply (numeral_of_unique _ _ _ (to_string_numeral _ H')) in A4.
  apply (numeral_of_unique _ _ _ (to_string_numeral _ Mi')) in A5.
  apply (numeral_of_unique _ _ _ (to_string_numeral _ S')) in A6.
  destruct (local_tm clk) as [y mo d h mi s].
  destruct (local_tm clk') as [y' mo' d' h' mi' s'].
  cbn [tm_year tm_mon tm_mday tm_hour tm_min tm_sec] in *.
  f_equal; lia.
Qed.

Lemma timestamp_determines_time_sample :
  let other := {| hr_first := 0; hr_now := 1500; local_tm := tm0 |} in
  let b := CTeeBuf_new stringbuf stringbuf in
  dated (local_tm clk0) /\
  fst (GetTimeStamp clk0 b) = fst (GetTimeStamp other b) /\
  local_tm clk0 = local_tm other.
Proof.
  intros other b.
  assert (Dt : dated (local_tm clk0)) by (cbv; intuition discriminate).
  split; [exact Dt|]. split; [reflexivity|].
  exact (proj1 (timestamp_determines_time clk0 other b b Dt Dt eq_refl)).
Defined.

(** ** The width of a timestamp *)

Lemma shr_fexp_upto (D N m e : Z) (l : location) :
  below D m e -> upto N m e -> -1100 <= e ->
  let '(mrs, e') := shr_fexp prec emax m e l in
  upto N (shr_m mrs) e'.
Proof.
  intros [H0 H1] U He.
  unfold shr_fexp, shr, fexp, emin, prec, emax.
  assert (Sm : shr_m (shr_record_of_loc m l) = m) by (destruct l as [|[| |]]; reflexivity).
  destruct (Z.max (Zdigits2 m + e - 53) (3 - 1024 - 53) - e) as [|p|p].
  - now rewrite Sm.
  - rewrite iter_shr by (rewrite Sm; lia). rewrite Sm. unfold upto in *.
    assert (P : 0 < 2 ^ Zpos p) by (apply Z.pow_pos_nonneg; lia).
    assert (Q : 0 < 2 ^ (e + 1100)) by (apply Z.pow_pos_nonneg; lia).
    replace (e + Zpos p + 1100) with (Zpos p + (e + 1100)) by lia.
    rewrite Z.pow_add_r by lia.
    pose proof (Z.mul_div_le m (2 ^ Zpos p) P). nia.
  - now rewrite Sm.
Qed.

Lemma binary_round_aux_upto (D N : Z) (s : bool) (m e : Z) (l : location) :
  below D m e -> upto N m e -> -1100 <= e ->
  match binary_round_aux prec emax s m e l with
  | S754_finite s' m' e' =>
      s' = s /\ e <= e' /\
      upto (N + 2 ^ (Z.max e (Z.max (Z.max e D - 53) (-1074)) + 1100)) (Zpos m') e'
  | S754_zero s' => s' = s
  | _ => True
  end.
Proof.
  intros B U He. unfold binary_round_aux.
  pose proof (shr_fexp_bound D m e l B) as S1.
  pose proof (shr_fexp_upto D N m e l B U He) as U1.
  destruct (shr_fexp prec emax m e l) as [mrs1 e1].
  destruct S1 as (B1 & L1 & M1).
  set (E1 := Z.max e (Z.max (Z.max e D - 53) (-1074))) in *.
  set (mr := round_nearest_even (shr_m mrs1) (loc_of_shr_record mrs1)).
  pose proof (round_bound (shr_m mrs1) (loc_of_shr_record mrs1)) as R. fold mr in R.
  assert (B2 : below (Z.max D e1 + 1) mr e1).
  { pose proof (below_succ D _ e1 B1) as [_ X]. destruct B1 as [Y _]. split; lia. }
  assert (U2 : upto (N + 2 ^ (E1 + 1100)) mr e1).
  { unfold upto in *.
    assert (Q : 0 < 2 ^ (e1 + 1100)) by (apply Z.pow_pos_nonneg; lia).
    assert (Q' : 2 ^ (e1 + 1100) <= 2 ^ (E1 + 1100)) by (apply Z.pow_le_mono_r; lia).
    nia. }
  pose proof (shr_fexp_upto _ _ mr e1 loc_Exact B2 U2 ltac:(lia)) as U3.
  pose proof (shr_fexp_bound _ mr e1 loc_Exact B2) as S2.
  destruct (shr_fexp prec emax mr e1 loc_Exact) as [mrs2 e2].
  destruct S2 as (_ & L2 & _).
  destruct (shr_m mrs2) as [|p|p]; auto.
  destruct (e2 <=? emax - prec); auto.
  split; [reflexivity|]. split; [lia|exact U3].
Qed.

Lemma shl_align_upto (m : positive) (e e' : Z) :
  -1100 <= e -> -1100 <= e' ->
  let '(mz, ez) := shl_align m e e' in
  Zpos mz * 2 ^ (ez + 1100) = Zpos m * 2 ^ (e + 1100) /\ -1100 <= ez.
Proof.
  intros He He'. unfold shl_align.
  destruct (e' - e) as [|d|d] eqn:Ed; try (split; [reflexivity|lia]).
  rewrite iter_xO. split; [|lia].
  replace (e + 1100) with (Zpos d + (e' + 1100)) by lia.
  rewrite (Z.pow_add_r 2 (Zpos d) (e' + 1100)) by lia. ring.
Qed.

Lemma fexp_ge (k : Z) : -1074 <= fexp prec emax k.
Proof. unfold fexp, emin, prec, emax. lia. Qed.

(** The double nearest to a positive tick count below [2^D]. *)
Lemma double_of_Z_upto (D : Z) (p : positive) :
  0 <= D <= 53 -> Zpos p < 2 ^ D ->
  within (D + 1) 64 (double_of_Z (Zpos p)) /\
  nonneg_upto ((Zpos p + 1) * 2 ^ 1100) (double_of_Z (Zpos p)).
Proof.
  intros HD Hp.
  pose proof (binary_round_within D 64 false p 0 (Zpos_below p D (proj1 HD) Hp)
                ltac:(lia) ltac:(lia) ltac:(lia)) as W.
  replace (Z.max (Z.max D 0) (-1074) + 1) with (D + 1) in W by lia.
  split; [exact W|].
  unfold double_of_Z, binary_normalize. unfold binary_round in *.
  pose proof (shl_align_below D p 0
                (fexp prec emax (Zpos (digits2_pos p) + 0))
                (Zpos_below p D (proj1 HD) Hp)) as A.
  pose proof (shl_align_upto p 0 (fexp prec emax (Zpos (digits2_pos p) + 0))
                ltac:(lia) ltac:(pose proof (fexp_ge (Zpos (digits2_pos p) + 0)); lia))
    as U.
  destruct (shl_align p 0 (fexp prec emax (Zpos (digits2_pos p) + 0))) as [mz ez].
  destruct A as (B1 & L1). destruct U as (Uv & Le).
  pose proof (binary_round_aux_upto _ (Zpos p * 2 ^ 1100) false (Zpos mz) ez
                loc_Exact B1) as R.
  unfold upto in R at 1. rewrite Uv in R. specialize (R ltac:(simpl; lia) Le).
  destruct (binary_round_aux prec emax false (Zpos mz) ez loc_Exact)
    as [s|s| |s m e]; cbn [within nonneg_upto] in *; try tauto.
  destruct R as (-> & Ge & U). split; [reflexivity|]. split; [lia|].
  unfold upto in *.
  assert (Q : 2 ^ (Z.max ez (Z.max (Z.max ez (Z.max D 0) - 53) (-1074)) + 1100)
              <= 2 ^ 1100) by (apply Z.pow_le_mono_r; lia).
  lia.
Qed.

Lemma upto_below (D N m e : Z) :
  0 <= m -> -1100 <= e -> upto N m e -> N < 2 ^ (D + 1100) -> below D m e.
Proof.
  intros Hm He U HN. split; [exact Hm|]. unfold upto in U.
  assert (Q : 0 < 2 ^ (e + 1100)) by (apply Z.pow_pos_nonneg; lia).
  destruct (Z.le_gt_cases e D) as [L|G].
  - replace (Z.max 0 (D - e)) with (D - e) by lia.
    assert (X : 2 ^ (D + 1100) = 2 ^ (D - e) * 2 ^ (e + 1100)).
    { rewrite <- Z.pow_add_r by lia. f_equal. lia. }
    nia.
  - replace (Z.max 0 (D - e)) with 0 by lia.
    assert (X : 2 ^ (D + 1100) <= 2 ^ (e + 1100)) by (apply Z.pow_le_mono_r; lia).
    simpl. nia.
Qed.

(** Division of a non-negative double by the double [10^9]. *)
Lemma SFdiv_giga_upto (Dx Dq Eq Nx : Z) (mx : positive) (ex : Z) :
  below Dx (Zpos mx) ex -> upto Nx (Zpos mx) ex ->
  -1100 <= ex <= 64 -> Dx <= 64 ->
  Nx / 1000000000 < 2 ^ (Dq + 1100) ->
  -19 <= Eq -> Dq <= 34 ->
  nonneg_upto (Nx / 1000000000 + 2 ^ (Eq + 1100))
    (SFdiv prec emax (S754_finite false mx ex) (S754_finite false giga (-23))).
Proof.
  intros Bx Ux Hex HDx HN HE1 HDq. cbn [SFdiv]. unfold SFdiv_core_binary.
  pose proof (below_digits _ _ _ Bx) as Dg.
  set (d1 := Zdigits2 (Zpos mx)) in *.
  change (Zdigits2 (Zpos giga)) with 53.
  set (e' := Z.min (fexp prec emax (d1 + ex - (53 + -23))) (ex - -23)).
  assert (He'lo : -1100 <= e').
  { unfold e'. pose proof (fexp_ge (d1 + ex - (53 + -23))). lia. }
  assert (He'hi : e' <= -19).
  { unfold e', fexp, emin, prec, emax. lia. }
  set (sh := ex - -23 - e').
  assert (Hsh : 0 <= sh) by (unfold sh, e'; lia).
  set (m' := match sh with
             | 0 => Zpos mx
             | Zpos _ => Z.shiftl (Zpos mx) sh
             | Zneg _ => 0
             end).
  assert (Hm' : m' = Zpos mx * 2 ^ sh).
  { unfold m'. destruct sh as [|p|p] eqn:Es; [simpl; lia| |lia].
    rewrite Z.shiftl_mul_pow2; lia. }
  pose proof (Z_div_mod m' (Zpos giga) ltac:(lia)) as DM.
  destruct (Z.div_eucl m' (Zpos giga)) as [q r].
  destruct DM as (Eq' & Hr).
  assert (P : 0 < 2 ^ sh) by (apply Z.pow_pos_nonneg; lia).
  assert (Hq0 : 0 <= q) by nia.
  assert (Uq : upto (Nx / 1000000000) q e').
  { unfold upto in *. apply Z.div_le_lower_bound; [lia|].
    assert (A : 0 < 2 ^ (e' + 1100)) by (apply Z.pow_pos_nonneg; lia).
    assert (X : 2 ^ sh * 2 ^ (e' + 1100) = 2 ^ 23 * 2 ^ (ex + 1100)).
    { rewrite <- !Z.pow_add_r by lia. f_equal. unfold sh. lia. }
    change (Zpos giga) with (1000000000 * 2 ^ 23) in Eq'.
    assert (Y : q * (1000000000 * 2 ^ 23) <= Zpos mx * 2 ^ sh) by lia.
    assert (Z1 : q * (1000000000 * 2 ^ 23) * 2 ^ (e' + 1100)
                 <= Zpos mx * 2 ^ sh * 2 ^ (e' + 1100)) by nia.
    replace (Zpos mx * 2 ^ sh * 2 ^ (e' + 1100))
      with (Zpos mx * 2 ^ (ex + 1100) * 2 ^ 23) in Z1
      by (rewrite <- (Z.mul_assoc (Zpos mx) (2 ^ sh)), X; ring).
    assert (T : 0 < 2 ^ 23) by reflexivity.
    nia. }
  pose proof (upto_below Dq _ q e' Hq0 ltac:(lia) Uq HN) as Bq.
  pose proof (binary_round_aux_upto Dq _ (xorb false false) q e'
                (new_location (Zpos giga) r) Bq Uq ltac:(lia)) as R.
  pose proof (binary_round_aux_within Dq 900 (xorb false false) q e'
                (new_location (Zpos giga) r) Bq ltac:(lia) ltac:(lia) ltac:(lia)) as W.
  cbn [xorb] in *.
  destruct (binary_round_aux prec emax false q e' (new_location (Zpos giga) r))
    as [s|s| |s m e]; cbn [nonneg_upto within] in *.
  - exact R.
  - exact W.
  - exact W.
  - destruct R as (-> & Ge & U). split; [reflexivity|]. split; [lia|].
    unfold upto in *.
    assert (Q : 2 ^ (Z.max e' (Z.max (Z.max e' Dq - 53) (-1074)) + 1100)
                <= 2 ^ (Eq + 1100)) by (apply Z.pow_le_mono_r; lia).
    lia.
Qed.

Lemma round_half_even_le (num den : Z) :
  round_half_even num den <= num / den + 1.
Proof.
  unfold round_half_even.
  destruct (2 * (num mod den) ?= den); [destruct (Z.even (num / den))| |]; lia.
Qed.

Lemma millionths_upto (N : Z) (m : positive) (e : Z) :
  -1100 <= e -> upto N (Zpos m) e ->
  millionths m e * 2 ^ 1100 <= N * 1000000 + 2 ^ 1100.
Proof.
  intros He U. unfold upto in U. unfold millionths.
  assert (T : 0 < 2 ^ 1100) by (apply Z.pow_pos_nonneg; lia).
  assert (Q : 0 < 2 ^ (e + 1100)) by (apply Z.pow_pos_nonneg; lia).
  destruct (Z.leb_spec 0 e) as [L|L].
  - assert (X : 2 ^ e * 2 ^ 1100 = 2 ^ (e + 1100)) by (rewrite <- Z.pow_add_r; lia).
    nia.
  - assert (P : 0 < 2 ^ (- e)) by (apply Z.pow_pos_nonneg; lia).
    assert (X : 2 ^ (- e) * 2 ^ (e + 1100) = 2 ^ 1100).
    { rewrite <- Z.pow_add_r by lia. f_equal. lia. }
    pose proof (round_half_even_le (Zpos m * 1000000) (2 ^ (- e))) as R.
    pose proof (Z.mul_div_le (Zpos m * 1000000) (2 ^ (- e)) P) as F.
    set (fl := Zpos m * 1000000 / 2 ^ (- e)) in *.
    assert (F0 : 0 <= fl) by (apply Z.div_pos; lia).
    assert (Y : fl * 2 ^ 1100 <= N * 1000000).
    { rewrite <- X.
      assert (fl * (2 ^ (- e) * 2 ^ (e + 1100))
              <= Zpos m * 1000000 * 2 ^ (e + 1100)) by nia.
      nia. }
    nia.
Qed.

Lemma to_string_two_digits (v : Z) :
  0 <= v <= 99 -> (String.length (to_string v) <= 2)%nat.
Proof.
  intros Hv. apply Nat.leb_le.
  apply (all_from_spec (fun v => Nat.leb (String.length (to_string v)) 2)
           (Z.to_nat 100) 0); [vm_compute; reflexivity|lia].
Qed.

Lemma length_fixed6 (q : Z) :
  String.length (fixed6 false q) =
    (String.length (to_string (q / 1000000)) + 7)%nat.
Proof.
  unfold fixed6. cbn [String.append]. rewrite length_append. reflexivity.
Qed.

Lemma seconds_text_short (N : Z) (x : double) :
  nonneg_upto N x ->
  N * 1000000 + 2 ^ 1100 < 100000000 * 2 ^ 1100 ->
  (String.length (to_string_double x) <= 9)%nat.
Proof.
  intros U HN. destruct x as [s|s| |s m e]; cbn [nonneg_upto] in U; try tauto.
  - subst s. vm_compute. lia.
  - destruct U as (-> & He & U). unfold to_string_double.
    rewrite length_fixed6.
    pose proof (millionths_upto N m e He U) as M.
    pose proof (millionths_nonneg m e) as M0.
    assert (T : 0 < 2 ^ 1100) by (apply Z.pow_pos_nonneg; lia).
    assert (Hq : millionths m e < 100000000) by nia.
    assert (Hip : 0 <= millionths m e / 1000000 <= 99).
    { split; [apply Z.div_pos; lia|].
      apply Z.lt_succ_r. apply Z.div_lt_upper_bound; lia. }
    pose proof (to_string_two_digits _ Hip). lia.
Qed.

Lemma wrap64_small (z : Z) : - 2 ^ 63 <= z < 2 ^ 63 -> wrap64 z = z.
Proof.
  intros Hz. unfold wrap64. rewrite Z.mod_small; lia.
Qed.

Lemma duration_text_short (t : Z) :
  0 <= t <= 99 * ticks_per_second ->
  (String.length (to_string_double (duration_double t)) <= 9)%nat.
Proof.
  intros Ht. unfold ticks_per_second in Ht. unfold duration_double.
  change (double_of_Z ticks_per_second) with (S754_finite false giga (-23)).
  destruct t as [|p|p]; [vm_compute; lia| |lia].
  destruct (double_of_Z_upto 37 p ltac:(lia) ltac:(simpl; lia)) as (W & U).
  destruct (double_of_Z (Zpos p)) as [s|s| |s m e]; cbn [within nonneg_upto] in *;
    try tauto.
  - subst s. vm_compute. lia.
  - destruct W as (B & Ee). destruct U as (-> & He & U).
    set (Nx := (Zpos p + 1) * 2 ^ 1100) in *.
    assert (P : 0 < 2 ^ 1056) by (apply Z.pow_pos_nonneg; lia).
    assert (X : 2 ^ 1100 = 2 ^ 44 * 2 ^ 1056) by (rewrite <- Z.pow_add_r; [f_equal|..]; lia).
    assert (X9 : 2 ^ (9 + 1100) = 2 ^ 53 * 2 ^ 1056)
      by (rewrite <- Z.pow_add_r; [f_equal|..]; lia).
    pose proof (Z.mul_div_le Nx 1000000000 ltac:(lia)) as F.
    assert (F0 : 0 <= Nx / 1000000000) by (apply Z.div_pos; unfold Nx; nia).
    eapply (seconds_text_short (Nx / 1000000000 + 2 ^ (-19 + 1100))).
    + apply (SFdiv_giga_upto 38 9 (-19) Nx m e); try lia; try assumption.
    + assert (X25 : 2 ^ (-19 + 1100) = 2 ^ 25 * 2 ^ 1056)
        by (rewrite <- Z.pow_add_r; [f_equal|..]; lia).
      rewrite X25, X.
      assert (HN : Nx = (Zpos p + 1) * (2 ^ 44 * 2 ^ 1056)) by (unfold Nx; now rewrite X).
      clearbody Nx. subst Nx. clear U X X9 X25.
      set (P' := 2 ^ 1056) in *. change (2 ^ 44) with 17592186044416 in *.
      change (2 ^ 25) with 33554432.
      assert (G : (Zpos p + 1) * P' <= 99000000001 * P') by nia.
      set (a := (Zpos p + 1) * (17592186044416 * P') / 1000000000) in *.
      lia.
Qed.

(** X10: during the first 99 seconds after the clock was started, for
    calendar fields of a four-digit year, a timestamp has at most 32
    characters; set left in its field it then fills exactly 32
    columns, so the text of every stamped line begins in the same
    column. *)
Theorem stamp_fits_its_field (clk : ClockReading) (b : CTeeBuf) :
  calendar (local_tm clk) ->
  0 <= hr_now clk - (if clockStarted b then start b else hr_first clk)
    <= 99 * ticks_per_second ->
  let ts := fst (GetTimeStamp clk b) in
  (String.length ts <= 32)%nat /\
  String.length (ts ++ spaces (32 - String.length ts)) = 32%nat.
Proof.
  intros (Hy & Hm & Hd & Hh & Hmi & Hs) Ht ts.
  assert (L : (String.length ts <= 32)%nat).
  { unfold ts. rewrite GetTimeStamp_text.
    pose proof (to_string_four_digits _ Hy).
    pose proof (to_string_two_digits (tm_mon (local_tm clk) + 1) ltac:(lia)).
    pose proof (to_string_two_digits (tm_mday (local_tm clk)) ltac:(lia)).
    pose proof (to_string_two_digits (tm_hour (local_tm clk)) ltac:(lia)).
    pose proof (to_string_two_digits (tm_min (local_tm clk)) ltac:(lia)).
    pose proof (to_string_two_digits (tm_sec (local_tm clk)) ltac:(lia)).
    assert ((String.length (to_string_double (elapsed clk b)) <= 9)%nat).
    { unfold elapsed. rewrite wrap64_small.
      - now apply duration_text_short.
      - unfold ticks_per_second in Ht. lia. }
    cbn [String.append String.length].
    repeat (rewrite length_append; cbn [String.length]). lia. }
  split; [exact L|]. rewrite length_append, length_spaces. lia.
Qed.

Lemma stamp_fits_its_field_sample :
  calendar (local_tm clk0) /\
  String.length (fst (GetTimeStamp clk0 (CTeeBuf_new stringbuf stringbuf))
                 ++ spaces (32 - String.length
                      (fst (GetTimeStamp clk0 (CTeeBuf_new stringbuf stringbuf)))))
    = 32%nat.
Proof.
  assert (C : calendar (local_tm clk0)) by (cbv; intuition discriminate).
  split; [exact C|].
  refine (proj2 (stamp_fits_its_field clk0 (CTeeBuf_new stringbuf stringbuf) C _)).
  cbv; intuition discriminate.
Defined.

(** ** A destination that refuses part of the timestamp *)

Lemma prefix_of_nil (k : nat) : prefix_of k "" = "".
Proof. destruct k; reflexivity. Qed.














Lemma clock_origin_is_first_stamp_sample :
  let b := set_timeStampEnabledStream1 true (CTeeBuf_new stringbuf stringbuf) in
  let b' := snd (overflow clk0 (to_int_type "x") b) in
  clockStarted b = false /\
  clockStarted b' = true /\ start b' = 5000 /\ now b' = 6500.
Proof.
  intros b b'. split; [reflexivity|].
  destruct clock_origin_is_first_stamp as (First & _).
  apply (First clk0 (to_int_type "x") b); [discriminate|reflexivity|reflexivity].
Defined.
